(** * Poll response analysis: the data and aggregation logic of
    [poll_analysis_app.py]

    The dashboard loads one CSV table of webinar poll responses with pandas,
    restricts it with equality filters chosen in the sidebar, and derives two
    aggregate tables ([get_session_summary], [get_question_totals]).  This
    development embeds that logic: a [DataFrame] is the list of its rows in
    positional order, a cell is a value or the missing value [NaN] that
    [pd.read_csv] produces for an empty field, and every pandas call of the
    source is written out as the list function it computes.  The percentages
    of the second tab are computed on binary64 floating-point numbers. *)

From Stdlib Require Import List ZArith Bool String Lia Permutation Sorted.
From Stdlib Require Import Floats Reals Lra Psatz.
Import ListNotations.

Set Implicit Arguments.

(** ** Cells and the pandas operations the source uses *)

(** A cell of a column: a value, or the missing value.  [pd.read_csv] yields
    the missing value for an empty field (and for the default NA spellings). *)
Inductive cell (A : Type) : Type :=
| NaN
| Val (a : A).

Arguments NaN {A}.
Arguments Val {A} a.

(** Elementwise [==] of a column cell against a scalar: a missing value on
    either side compares unequal, as [nan == x] is [False]. *)
Definition cell_eq {A : Type} (eqb : A -> A -> bool) (c v : cell A) : bool :=
  match c, v with
  | Val a, Val b => eqb a b
  | _, _ => false
  end.

(** Python's [selected != "..."] of a widget value against a string literal;
    [nan != "..."] is [True]. *)
Definition py_ne (selected : cell string) (literal : string) : bool :=
  negb (cell_eq String.eqb selected (Val literal)).

(** [Series.dropna()] as a list: the present values, in order. *)
Fixpoint dropna {A : Type} (col : list (cell A)) : list A :=
  match col with
  | [] => []
  | NaN :: rest => dropna rest
  | Val a :: rest => a :: dropna rest
  end.

(** The aggregation ["count"]: the number of non-missing cells. *)
Definition count {A : Type} (col : list (cell A)) : nat :=
  List.length (dropna col).

(** The aggregation ["nunique"] (default [dropna=True]): the number of
    distinct non-missing values. *)
Definition nunique (col : list (cell string)) : nat :=
  List.length (nodup string_dec (dropna col)).

(** ** The response table *)

(** One row of [poll-responses.csv], by column header. *)
Record Row : Type := mkRow {
  webinar_date : cell Z;            (* "Webinar Date", YYYYMMDD *)
  month_year : cell string;         (* "Month Year" *)
  webinar_title : cell string;      (* "Webinar Title (Full)" *)
  name : cell string;               (* "Name" *)
  city_state : cell string;         (* "City, State" *)
  state : cell string;              (* "State" *)
  population_range : cell string;   (* "Population Range" *)
  question : cell string;           (* "Question" *)
  answer : cell string              (* "Answer" *)
}.

Definition DataFrame : Type := list Row.

(** Boolean-mask selection [df[df[col] == value]]: the rows whose cell in
    [col] equals [value], in their original order. *)
Definition loc_eq (col : Row -> cell string) (value : cell string)
    (df : DataFrame) : DataFrame :=
  filter (fun r => cell_eq String.eqb (col r) value) df.

(** ** The filter engine ([main], lines 82-97 and 214-221) *)

(** What the four select boxes return: a string of the option list, which is
    the sentinel or a value taken from the column (possibly missing). *)
Record Selection : Type := mkSelection {
  selected_session : cell string;
  selected_question : cell string;
  selected_respondent : cell string;
  selected_city : cell string
}.

Definition ALL_SESSIONS : string := "All Sessions".
Definition ALL_QUESTIONS : string := "All Questions".
Definition ALL_RESPONDENTS : string := "All Respondents".
Definition ALL_CITIES : string := "All Cities".

(** One filter of [main]:
    [if selected != sentinel: df = df[df[col] == selected]]. *)
Definition filter_step (sentinel : string) (col : Row -> cell string)
    (selected : cell string) (df : DataFrame) : DataFrame :=
  if py_ne selected sentinel then loc_eq col selected df else df.

(** The chain of [main]: session, question, then (on a copy) respondent and
    city. *)
Definition apply_filters (df : DataFrame) (sel : Selection) : DataFrame :=
  let filtered_df := filter_step ALL_SESSIONS month_year (selected_session sel) df in
  let filtered_df := filter_step ALL_QUESTIONS question (selected_question sel) filtered_df in
  let display_df := filtered_df in
  let display_df := filter_step ALL_RESPONDENTS name (selected_respondent sel) display_df in
  let display_df := filter_step ALL_CITIES city_state (selected_city sel) display_df in
  display_df.

(** The selection that leaves every select box on its first option. *)
Definition no_selection : Selection :=
  mkSelection (Val ALL_SESSIONS) (Val ALL_QUESTIONS)
              (Val ALL_RESPONDENTS) (Val ALL_CITIES).

(** A constraint is active when the widget value is not the sentinel. *)
Definition active (sentinel : string) (selected : cell string) : Prop :=
  selected <> Val sentinel.

(** A row satisfies an equality constraint when its cell holds the selected
    string. *)
Definition satisfies (col : Row -> cell string) (selected : cell string)
    (r : Row) : Prop :=
  exists s, selected = Val s /\ col r = Val s.

(** The decision procedure of one constraint, sentinel included. *)
Definition step_ok (sentinel : string) (col : Row -> cell string)
    (selected : cell string) (r : Row) : bool :=
  if py_ne selected sentinel then cell_eq String.eqb (col r) selected else true.

Definition row_ok (sel : Selection) (r : Row) : bool :=
  step_ok ALL_SESSIONS month_year (selected_session sel) r
  && step_ok ALL_QUESTIONS question (selected_question sel) r
  && step_ok ALL_RESPONDENTS name (selected_respondent sel) r
  && step_ok ALL_CITIES city_state (selected_city sel) r.

(** The same chain as a list of steps (sentinel, column, widget value), run
    left to right; it serves to state that the order of the steps is
    immaterial. *)
Definition FilterStep : Type := string * (Row -> cell string) * cell string.

Definition run_step (st : FilterStep) (df : DataFrame) : DataFrame :=
  let '(sentinel, col, selected) := st in filter_step sentinel col selected df.

Definition step_passes (st : FilterStep) (r : Row) : bool :=
  let '(sentinel, col, selected) := st in step_ok sentinel col selected r.

Definition run_steps (steps : list FilterStep) (df : DataFrame) : DataFrame :=
  fold_left (fun acc st => run_step st acc) steps df.

Definition selection_steps (sel : Selection) : list FilterStep :=
  [(ALL_SESSIONS, month_year, selected_session sel);
   (ALL_QUESTIONS, question, selected_question sel);
   (ALL_RESPONDENTS, name, selected_respondent sel);
   (ALL_CITIES, city_state, selected_city sel)].

(** ** Group keys and [groupby] *)

(** What [groupby] needs of a key type: decidable equality to form the
    groups and the order in which [sort=True] lists them. *)
Class Key (K : Type) : Type := {
  key_eq_dec : forall a b : K, {a = b} + {a <> b};
  key_leb : K -> K -> bool;
  key_leb_total : forall a b : K, key_leb a b = true \/ key_leb b a = true
}.

Lemma Z_leb_total (a b : Z) : (a <=? b)%Z = true \/ (b <=? a)%Z = true.
Proof.
  rewrite !Z.leb_le. lia.
Qed.

#[export] Instance Key_Z : Key Z :=
  {| key_eq_dec := Z.eq_dec; key_leb := Z.leb; key_leb_total := Z_leb_total |}.

(** Strings compare as Python compares [str]: character by character. *)
#[export] Instance Key_string : Key string :=
  {| key_eq_dec := string_dec;
     key_leb := String.leb;
     key_leb_total := String.leb_total |}.

Definition pair_eq_dec {A B : Type} `{Key A} `{Key B} (p q : A * B) :
    {p = q} + {p <> q}.
Proof.
  destruct p as [a b], q as [c d].
  destruct (key_eq_dec a c) as [Hac | Hac].
  - destruct (key_eq_dec b d) as [Hbd | Hbd].
    + left. now subst.
    + right. intros E. now inversion E.
  - right. intros E. now inversion E.
Defined.

(** Several key columns compare lexicographically, first column first. *)
Definition pair_leb {A B : Type} `{Key A} `{Key B} (p q : A * B) : bool :=
  if key_eq_dec (fst p) (fst q) then key_leb (snd p) (snd q)
  else key_leb (fst p) (fst q).

Lemma pair_leb_total (A B : Type) `{Key A} `{Key B} (p q : A * B) :
  pair_leb p q = true \/ pair_leb q p = true.
Proof.
  unfold pair_leb. destruct p as [a b], q as [c d]. simpl.
  destruct (key_eq_dec a c) as [E | E], (key_eq_dec c a) as [E' | E'];
    try congruence; apply key_leb_total.
Qed.

#[export] Instance Key_pair {A B : Type} `{Key A} `{Key B} : Key (A * B) :=
  {| key_eq_dec := pair_eq_dec;
     key_leb := pair_leb;
     key_leb_total := @pair_leb_total A B _ _ |}.

Definition key_eqb {K : Type} `{Key K} (a b : K) : bool :=
  if key_eq_dec a b then true else false.

(** Two key cells side by side; the pair is missing as soon as one is, which
    is how [dropna=True] leaves a row out of every group. *)
Definition cell_pair {A B : Type} (a : cell A) (b : cell B) : cell (A * B) :=
  match a, b with
  | Val x, Val y => Val (x, y)
  | _, _ => NaN
  end.

Fixpoint insert_key {K : Type} `{Key K} (k : K) (sorted : list K) : list K :=
  match sorted with
  | [] => [k]
  | h :: rest => if key_leb k h then k :: sorted else h :: insert_key k rest
  end.

Definition sort_keys {K : Type} `{Key K} (keys : list K) : list K :=
  fold_right insert_key [] keys.

(** The group labels of [df.groupby(key)]: the distinct present keys, in
    ascending order. *)
Definition group_keys {K : Type} `{Key K} (key : Row -> cell K)
    (df : DataFrame) : list K :=
  sort_keys (nodup key_eq_dec (dropna (map key df))).

(** The rows of one group, in table order. *)
Definition get_group {K : Type} `{Key K} (key : Row -> cell K) (k : K)
    (df : DataFrame) : DataFrame :=
  filter (fun r => cell_eq key_eqb (key r) (Val k)) df.

(** ** [sort_values] *)

(** [frame.sort_values("Webinar Date", ascending=False)] is called with the
    default [kind="quicksort"], which pandas documents as not stable: the
    result is the rows rearranged into descending key order, and nothing is
    promised about rows with equal keys.  The source fixes no more than that,
    so the sort is an interface with exactly this contract. *)
Class SortValues : Type := {
  sort_values_desc : forall A : Type, (A -> Z) -> list A -> list A;
  sort_values_perm : forall (A : Type) (by_col : A -> Z) (l : list A),
    Permutation (sort_values_desc by_col l) l;
  sort_values_sorted : forall (A : Type) (by_col : A -> Z) (l : list A),
    StronglySorted (fun x y => (by_col y <= by_col x)%Z)
                   (sort_values_desc by_col l)
}.

(** A sort that meets the contract: insertion, a row going in front of the
    rows of equal key that follow it in the input.  It serves to evaluate the
    aggregations on sample tables. *)
Fixpoint insert_before {A : Type} (by_col : A -> Z) (x : A) (sorted : list A)
    : list A :=
  match sorted with
  | [] => [x]
  | h :: rest =>
      if (by_col h <=? by_col x)%Z then x :: sorted
      else h :: insert_before by_col x rest
  end.

Definition stable_sort_desc {A : Type} (by_col : A -> Z) (l : list A) : list A :=
  fold_right (insert_before by_col) [] l.

(** ** [get_session_summary] *)

Definition SessionKey : Type := Z * (string * string).

(** The key columns ["Webinar Date", "Month Year", "Webinar Title (Full)"]. *)
Definition session_key (r : Row) : cell SessionKey :=
  cell_pair (webinar_date r) (cell_pair (month_year r) (webinar_title r)).

(** A row of the summary, after [rename] and [reset_index]. *)
Record SummaryRow : Type := mkSummaryRow {
  s_webinar_date : Z;
  s_month_year : string;
  s_webinar_title : string;
  unique_respondents : nat;   (* "Name": "nunique" *)
  unique_questions : nat;     (* "Question": "nunique" *)
  total_responses : nat       (* "Answer": "count" *)
}.

Definition summary_key (s : SummaryRow) : SessionKey :=
  (s_webinar_date s, (s_month_year s, s_webinar_title s)).

(** The aggregate row of one session. *)
Definition agg_session (df : DataFrame) (k : SessionKey) : SummaryRow :=
  let g := get_group session_key k df in
  {| s_webinar_date := fst k;
     s_month_year := fst (snd k);
     s_webinar_title := snd (snd k);
     unique_respondents := nunique (map name g);
     unique_questions := nunique (map question g);
     total_responses := count (map answer g) |}.

(** [groupby(...).agg(...).rename(...).reset_index()]: one row per group, in
    the order of the grouping. *)
Definition session_groups (df : DataFrame) : list SummaryRow :=
  map (agg_session df) (group_keys session_key df).

Definition get_session_summary `{SortValues} (df : DataFrame) : list SummaryRow :=
  let summary := session_groups df in
  let summary := sort_values_desc s_webinar_date summary in
  summary.

(** ** [get_question_totals] *)

Definition AnswerKey : Type := SessionKey * (string * string).

(** The key columns of the question totals: the session columns, then
    ["Question"] and ["Answer"]. *)
Definition answer_key (r : Row) : cell AnswerKey :=
  cell_pair (session_key r) (cell_pair (question r) (answer r)).

Record TotalsRow : Type := mkTotalsRow {
  t_webinar_date : Z;
  t_month_year : string;
  t_webinar_title : string;
  t_question : string;
  t_answer : string;
  t_count : nat               (* .size(), as "Count" *)
}.

Definition totals_key (t : TotalsRow) : AnswerKey :=
  ((t_webinar_date t, (t_month_year t, t_webinar_title t)),
   (t_question t, t_answer t)).

Definition size_group (df : DataFrame) (k : AnswerKey) : TotalsRow :=
  {| t_webinar_date := fst (fst k);
     t_month_year := fst (snd (fst k));
     t_webinar_title := snd (snd (fst k));
     t_question := fst (snd k);
     t_answer := snd (snd k);
     t_count := List.length (get_group answer_key k df) |}.

Definition answer_groups (df : DataFrame) : list TotalsRow :=
  map (size_group df) (group_keys answer_key df).

(** Python's truth value of a label: the empty string is false, every other
    string and the missing value ([bool(float("nan"))]) are true. *)
Definition py_bool (v : cell string) : bool :=
  match v with
  | NaN => true
  | Val s => negb (String.eqb s "")
  end.

(** The rows [get_question_totals] groups: [if session_filter: df = df[...]].
    [None] is Python's [None], the default. *)
Definition restrict_session (df : DataFrame)
    (session_filter : option (cell string)) : DataFrame :=
  match session_filter with
  | Some v => if py_bool v then loc_eq month_year v df else df
  | None => df
  end.

Definition get_question_totals `{SortValues} (df : DataFrame)
    (session_filter : option (cell string)) : list TotalsRow :=
  let df := restrict_session df session_filter in
  let totals := answer_groups df in
  let totals := sort_values_desc t_webinar_date totals in
  totals.

(** ** [load_data] and the load step of [main] *)

(** The state of the path ["poll-responses.csv"] when it is read. *)
Inductive PathState : Type :=
| Absent
| Unreadable (reason : string)      (* a directory, no permission, ... *)
| Present (contents : string).

(** What [pd.read_csv] can raise: [FileNotFoundError] for an absent path,
    another [OSError] for a path that is there and cannot be read, or an
    error of the parser on the contents of the file. *)
Inductive Exception : Type :=
| FileNotFoundError
| OtherOSError (reason : string)
| ParserError (message : string).

(** The memo table of [@st.cache_data] for the one call signature
    [load_data()]. *)
Definition Cache : Type := option DataFrame.

(** What the load step of [main] leaves on the page. *)
Inductive LoadOutcome : Type :=
| Halted (error_message : string)                 (* st.error(...); return *)
| Proceeds (df : DataFrame) (responses respondents : nat)  (* st.success(...) *)
| Propagates (e : Exception).                      (* not caught *)

Definition NOT_FOUND_MESSAGE : string :=
  "Could not find poll-responses.csv file. Please make sure it's in the same directory.".

Section Loader.

(** The CSV parser of pandas, on the contents of a file that exists. *)
Variable parse_csv : string -> string + DataFrame.

Definition read_csv (path : PathState) : Exception + DataFrame :=
  match path with
  | Absent => inl FileNotFoundError
  | Unreadable reason => inl (OtherOSError reason)
  | Present contents =>
      match parse_csv contents with
      | inl message => inl (ParserError message)
      | inr df => inr df
      end
  end.

(** [load_data] under [@st.cache_data]: a memoized table is returned without
    running the body; otherwise the body runs, and its result is memoized
    only when it returns (an exception stores nothing). *)
Definition load_data (path : PathState) (cache : Cache)
    : (Exception + DataFrame) * Cache :=
  match cache with
  | Some df => (inr df, cache)
  | None =>
      match read_csv path with
      | inr df => (inr df, Some df)
      | inl e => (inl e, None)
      end
  end.

(** [main], lines 61-66: [try: df = load_data() ... except FileNotFoundError]. *)
Definition main_load (path : PathState) (cache : Cache) : LoadOutcome * Cache :=
  match load_data path cache with
  | (inr df, cache') =>
      (Proceeds df (List.length df) (nunique (map name df)), cache')
  | (inl FileNotFoundError, cache') => (Halted NOT_FOUND_MESSAGE, cache')
  | (inl e, cache') => (Propagates e, cache')
  end.

End Loader.

(** ** Vocabulary of the statements *)

(** [notna]: the cell holds a value. *)
Definition present {A : Type} (c : cell A) : bool :=
  match c with
  | NaN => false
  | Val _ => true
  end.

(** [n] is the number of distinct values present in the column. *)
Definition distinct_count (col : list (cell string)) (n : nat) : Prop :=
  exists values : list string,
    NoDup values
    /\ (forall v, In v values <-> In (Val v) col)
    /\ n = List.length values.

(** The rows that enter the session summary with an answer: the three session
    columns and the answer are all present. *)
Definition counted (r : Row) : bool :=
  present (session_key r) && present (answer r).

(** Descending order of a key column. *)
Definition descending {A : Type} (by_col : A -> Z) (l : list A) : Prop :=
  StronglySorted (fun x y => (by_col y <= by_col x)%Z) l.

(** A response row belongs to the session of a summary row. *)
Definition in_session (s : SummaryRow) (r : Row) : Prop :=
  webinar_date r = Val (s_webinar_date s)
  /\ month_year r = Val (s_month_year s)
  /\ webinar_title r = Val (s_webinar_title s).

(** A response row carries the combination of a totals row. *)
Definition has_combination (t : TotalsRow) (r : Row) : Prop :=
  webinar_date r = Val (t_webinar_date t)
  /\ month_year r = Val (t_month_year t)
  /\ webinar_title r = Val (t_webinar_title t)
  /\ question r = Val (t_question t)
  /\ answer r = Val (t_answer t).

Definition cell_eq_dec {K : Type} `{Key K} (a b : cell K) : {a = b} + {a <> b}.
Proof.
  destruct a as [| x], b as [| y].
  - now left.
  - right. discriminate.
  - right. discriminate.
  - destruct (key_eq_dec x y) as [E | E].
    + left. now subst.
    + right. intros E'. now inversion E'.
Defined.

(** The number of rows of a table that carry a given key. *)
Definition occurrences {K : Type} `{Key K} (key : Row -> cell K) (k : K)
    (df : DataFrame) : nat :=
  count_occ cell_eq_dec (map key df) (Val k).

(** ** Sample tables *)

(** A response from Ithaca with the given session, respondent, question and
    answer cell. *)
Definition response (date : Z) (label title respondent q : string)
    (a : cell string) : Row :=
  {| webinar_date := Val date;
     month_year := Val label;
     webinar_title := Val title;
     name := Val respondent;
     city_state := Val "Ithaca, NY"%string;
     state := Val "NY"%string;
     population_range := Val "25,000-49,999"%string;
     question := Val q;
     answer := a |}.

(** One respondent who left the answer field empty. *)
Definition unanswered_table : DataFrame :=
  [response 20240115 "Jan 2024" "Housing" "Jane Doe" "Top priority?" NaN].

(** Two webinars held on the same day. *)
Definition same_day_table : DataFrame :=
  [response 20240115 "Jan 2024 AM" "Housing" "Jane Doe" "Top priority?"
            (Val "Zoning"%string);
   response 20240115 "Jan 2024 PM" "Transit" "John Roe" "Top priority?"
            (Val "Buses"%string)].

(** Three answers A and one answer B to one question of one session. *)
Definition january_table : DataFrame :=
  [response 20240115 "Jan 2024" "Housing" "Jane Doe" "Top priority?"
            (Val "A"%string);
   response 20240115 "Jan 2024" "Housing" "John Roe" "Top priority?"
            (Val "A"%string);
   response 20240115 "Jan 2024" "Housing" "Ann Poe" "Top priority?"
            (Val "B"%string);
   response 20240115 "Jan 2024" "Housing" "Max Moe" "Top priority?"
            (Val "A"%string)].

(** Two sessions a month apart, two responses each. *)
Definition two_month_table : DataFrame :=
  [response 20240115 "Jan 2024" "Housing" "Jane Doe" "Top priority?"
            (Val "A"%string);
   response 20240212 "Feb 2024" "Transit" "Jane Doe" "Ride the bus?"
            (Val "Yes"%string);
   response 20240115 "Jan 2024" "Housing" "John Roe" "Top priority?"
            (Val "B"%string);
   response 20240212 "Feb 2024" "Transit" "John Roe" "Ride the bus?"
            (Val "Yes"%string)].

(** * Properties *)

(** ** Lists *)

Lemma filter_all (A : Type) (f : A -> bool) (l : list A) :
  (forall x, In x l -> f x = true) -> filter f l = l.
Proof.
  induction l as [| a l IH]; intros Hall; simpl.
  - reflexivity.
  - rewrite (Hall a (or_introl eq_refl)).
    f_equal. apply IH. intros x Hx. apply Hall. now right.
Qed.

Lemma filter_none (A : Type) (f : A -> bool) (l : list A) :
  (forall x, In x l -> f x = false) -> filter f l = [].
Proof.
  induction l as [| a l IH]; intros Hnone; simpl.
  - reflexivity.
  - rewrite (Hnone a (or_introl eq_refl)).
    apply IH. intros x Hx. apply Hnone. now right.
Qed.

Lemma filter_twice (A : Type) (f g : A -> bool) (l : list A) :
  filter g (filter f l) = filter (fun x => f x && g x) l.
Proof.
  induction l as [| a l IH]; simpl.
  - reflexivity.
  - destruct (f a); simpl.
    + destruct (g a); now rewrite IH.
    + exact IH.
Qed.

(** ** Cells *)

Lemma cell_eq_string_true (c v : cell string) :
  cell_eq String.eqb c v = true <-> exists s, v = Val s /\ c = Val s.
Proof.
  destruct c as [| a], v as [| b]; simpl; split;
    try discriminate; try (intros (s & H1 & H2); discriminate).
  - intros H. apply String.eqb_eq in H. subst. now exists b.
  - intros (s & H1 & H2). inversion H1; inversion H2; subst.
    apply String.eqb_refl.
Qed.

Lemma py_ne_true (selected : cell string) (sentinel : string) :
  py_ne selected sentinel = true <-> active sentinel selected.
Proof.
  unfold py_ne, active. rewrite negb_true_iff.
  destruct selected as [| x]; simpl.
  - split; [discriminate | reflexivity].
  - rewrite String.eqb_neq. split.
    + intros Hne E. now inversion E.
    + intros Hne E. apply Hne. now subst.
Qed.

Lemma py_ne_false (selected : cell string) (sentinel : string) :
  py_ne selected sentinel = false <-> selected = Val sentinel.
Proof.
  unfold py_ne. rewrite negb_false_iff.
  destruct selected as [| x]; simpl.
  - split; discriminate.
  - rewrite String.eqb_eq. split; intros E; [now subst | now inversion E].
Qed.

(** ** The filter engine *)

Lemma filter_step_as_filter sentinel col selected (df : DataFrame) :
  filter_step sentinel col selected df = filter (step_ok sentinel col selected) df.
Proof.
  unfold filter_step, step_ok, loc_eq.
  destruct (py_ne selected sentinel).
  - reflexivity.
  - symmetry. now apply filter_all.
Qed.

Lemma step_ok_spec sentinel col selected (r : Row) :
  step_ok sentinel col selected r = true
  <-> (active sentinel selected -> satisfies col selected r).
Proof.
  unfold step_ok, satisfies.
  destruct (py_ne selected sentinel) eqn:Hne.
  - rewrite cell_eq_string_true. apply py_ne_true in Hne. tauto.
  - apply py_ne_false in Hne. unfold active. split; [| reflexivity].
    intros _ Hact. contradiction.
Qed.

Lemma apply_filters_as_filter (df : DataFrame) (sel : Selection) :
  apply_filters df sel = filter (row_ok sel) df.
Proof.
  unfold apply_filters, row_ok.
  rewrite !filter_step_as_filter, !filter_twice.
  apply filter_ext. intros r. now rewrite !andb_assoc.
Qed.

Lemma row_ok_no_selection (r : Row) : row_ok no_selection r = true.
Proof.
  reflexivity.
Qed.

(** C1.  Applying the four filters returns exactly the rows of the table that
    satisfy every active constraint: the result is the table filtered by the
    conjunction of the constraints (same rows, same order, same multiplicity),
    a row is in the result exactly when it is in the table and satisfies each
    constraint whose select box is off its sentinel, and with all four boxes
    on their sentinels the result is the table itself. *)
Theorem apply_filters_exact (df : DataFrame) (sel : Selection) :
  apply_filters df sel = filter (row_ok sel) df
  /\ (forall r,
        In r (apply_filters df sel)
        <-> In r df
            /\ (active ALL_SESSIONS (selected_session sel)
                -> satisfies month_year (selected_session sel) r)
            /\ (active ALL_QUESTIONS (selected_question sel)
                -> satisfies question (selected_question sel) r)
            /\ (active ALL_RESPONDENTS (selected_respondent sel)
                -> satisfies name (selected_respondent sel) r)
            /\ (active ALL_CITIES (selected_city sel)
                -> satisfies city_state (selected_city sel) r))
  /\ apply_filters df no_selection = df.
Proof.
  split; [apply apply_filters_as_filter | split].
  - intros r. rewrite apply_filters_as_filter, filter_In.
    unfold row_ok. rewrite !andb_true_iff, !step_ok_spec. tauto.
  - rewrite apply_filters_as_filter. apply filter_all.
    intros r _. apply row_ok_no_selection.
Qed.

Lemma apply_filters_as_steps (df : DataFrame) (sel : Selection) :
  apply_filters df sel = run_steps (selection_steps sel) df.
Proof.
  reflexivity.
Qed.

Lemma run_steps_as_filter (steps : list FilterStep) (df : DataFrame) :
  run_steps steps df
  = filter (fun r => forallb (fun st => step_passes st r) steps) df.
Proof.
  revert df. induction steps as [| st steps IH]; intros df.
  - simpl. symmetry. now apply filter_all.
  - change (run_steps (st :: steps) df) with (run_steps steps (run_step st df)).
    rewrite IH. destruct st as [[sentinel col] selected]. simpl.
    rewrite filter_step_as_filter. apply filter_twice.
Qed.

Lemma forallb_perm (A : Type) (f : A -> bool) (l l' : list A) :
  Permutation l l' -> forallb f l = forallb f l'.
Proof.
  induction 1 as [| x l l' _ IH | x y l | l l' l'' _ IH1 _ IH2]; simpl.
  - reflexivity.
  - now rewrite IH.
  - destruct (f x), (f y); reflexivity.
  - congruence.
Qed.

Lemma run_steps_perm (steps steps' : list FilterStep) (df : DataFrame) :
  Permutation steps steps' -> run_steps steps df = run_steps steps' df.
Proof.
  intros Hperm. rewrite !run_steps_as_filter.
  apply filter_ext. intros r. now apply forallb_perm.
Qed.

(** C7.  Two filter steps commute, whichever columns and values they carry
    and whether or not either is on its sentinel, and together they keep the
    rows that pass both; the same holds of two bare equality selections, and
    the four steps of [main] run in any order give the result of
    [apply_filters]. *)
Theorem filter_steps_commute (s1 s2 : string) (col1 col2 : Row -> cell string)
    (v1 v2 : cell string) (df : DataFrame) :
  filter_step s2 col2 v2 (filter_step s1 col1 v1 df)
  = filter_step s1 col1 v1 (filter_step s2 col2 v2 df)
  /\ filter_step s2 col2 v2 (filter_step s1 col1 v1 df)
     = filter (fun r => step_ok s1 col1 v1 r && step_ok s2 col2 v2 r) df
  /\ loc_eq col2 v2 (loc_eq col1 v1 df) = loc_eq col1 v1 (loc_eq col2 v2 df)
  /\ (forall r, In r (loc_eq col2 v2 (loc_eq col1 v1 df))
                <-> In r df /\ satisfies col1 v1 r /\ satisfies col2 v2 r)
  /\ (forall sel steps, Permutation (selection_steps sel) steps ->
        run_steps steps df = apply_filters df sel).
Proof.
  split; [| split; [| split; [| split]]].
  - rewrite !filter_step_as_filter, !filter_twice.
    apply filter_ext. intros r. apply andb_comm.
  - rewrite !filter_step_as_filter. apply filter_twice.
  - unfold loc_eq. rewrite !filter_twice.
    apply filter_ext. intros r. apply andb_comm.
  - intros r. unfold loc_eq, satisfies.
    rewrite filter_twice, filter_In, andb_true_iff, !cell_eq_string_true.
    tauto.
  - intros sel steps Hperm. rewrite apply_filters_as_steps.
    symmetry. now apply run_steps_perm.
Qed.

(** C9.  An equality filter on a value that does not occur in its column
    yields the empty table; the filter is a total function, so nothing is
    raised. *)
Theorem absent_value_empty_table (col : Row -> cell string) (v : cell string)
    (df : DataFrame) :
  ~ In v (map col df) ->
  loc_eq col v df = []
  /\ (forall sentinel, active sentinel v -> filter_step sentinel col v df = []).
Proof.
  intros Habsent.
  assert (Hempty : loc_eq col v df = []).
  { apply filter_none. intros r Hr.
    destruct (cell_eq String.eqb (col r) v) eqn:E; [| reflexivity].
    apply cell_eq_string_true in E. destruct E as (s & Hv & Hc).
    exfalso. apply Habsent. apply in_map_iff. exists r. split; congruence. }
  split; [exact Hempty |].
  intros sentinel Hact. unfold filter_step.
  apply py_ne_true in Hact. now rewrite Hact.
Qed.

(** ** The insertion sort meets the contract of [sort_values] *)

Section InsertionSorts.

Context {A : Type} (by_col : A -> Z).

Lemma insert_before_perm (x : A) (l : list A) :
  Permutation (insert_before by_col x l) (x :: l).
Proof.
  induction l as [| h rest IH]; simpl.
  - apply Permutation_refl.
  - destruct (by_col h <=? by_col x)%Z.
    + apply Permutation_refl.
    + eapply perm_trans; [apply perm_skip, IH | apply perm_swap].
Qed.

Lemma stable_sort_desc_perm (l : list A) :
  Permutation (stable_sort_desc by_col l) l.
Proof.
  induction l as [| x l IH]; simpl.
  - constructor.
  - eapply perm_trans; [apply insert_before_perm | now apply perm_skip].
Qed.

Lemma descending_cons_below (x h : A) (rest : list A) :
  (by_col h <= by_col x)%Z -> descending by_col (h :: rest) ->
  descending by_col (x :: h :: rest).
Proof.
  intros Hle Hsorted. constructor; [exact Hsorted |].
  inversion Hsorted as [| ? ? _ Hall]; subst.
  constructor; [exact Hle |].
  eapply Forall_impl; [| exact Hall]. simpl. intros y Hy. lia.
Qed.

Lemma insert_before_descending (x : A) (l : list A) :
  descending by_col l -> descending by_col (insert_before by_col x l).
Proof.
  induction l as [| h rest IH]; intros Hsorted; simpl.
  - repeat constructor.
  - destruct (by_col h <=? by_col x)%Z eqn:E.
    + apply Z.leb_le in E. now apply descending_cons_below.
    + apply Z.leb_gt in E.
      inversion Hsorted as [| ? ? Hrest Hall]; subst.
      constructor; [now apply IH |].
      eapply Permutation_Forall.
      * apply Permutation_sym, insert_before_perm.
      * constructor; [lia | exact Hall].
Qed.

Lemma stable_sort_desc_descending (l : list A) :
  descending by_col (stable_sort_desc by_col l).
Proof.
  induction l as [| x l IH]; simpl.
  - constructor.
  - now apply insert_before_descending.
Qed.

End InsertionSorts.

(** The insertion sort as an instance of the interface. *)
Definition stable_sort_values : SortValues :=
  {| sort_values_desc := @stable_sort_desc;
     sort_values_perm := @stable_sort_desc_perm;
     sort_values_sorted := @stable_sort_desc_descending |}.

(** ** Columns and aggregations *)

Lemma In_dropna (A : Type) (a : A) (col : list (cell A)) :
  In a (dropna col) <-> In (Val a) col.
Proof.
  induction col as [| c col IH]; simpl.
  - tauto.
  - destruct c as [| b]; simpl; rewrite IH; split.
    + now right.
    + intros [E | Hin]; [discriminate | exact Hin].
    + intros [E | Hin]; [left; now subst | now right].
    + intros [E | Hin]; [left; now inversion E | now right].
Qed.

Lemma count_as_filter (A : Type) (col : Row -> cell A) (g : DataFrame) :
  count (map col g) = List.length (filter (fun r => present (col r)) g).
Proof.
  unfold count. induction g as [| r g IH]; simpl.
  - reflexivity.
  - destruct (col r); simpl; now rewrite IH.
Qed.

Lemma nunique_distinct_count (col : list (cell string)) :
  distinct_count col (nunique col).
Proof.
  exists (nodup string_dec (dropna col)). split; [apply NoDup_nodup | split].
  - intros v. now rewrite nodup_In, In_dropna.
  - reflexivity.
Qed.

Lemma cell_pair_Val (A B : Type) (a : cell A) (b : cell B) (x : A) (y : B) :
  cell_pair a b = Val (x, y) <-> a = Val x /\ b = Val y.
Proof.
  destruct a, b; simpl; split; intros H;
    try discriminate; try (destruct H; discriminate).
  - now inversion H.
  - destruct H as [Ha Hb]. now inversion Ha; inversion Hb.
Qed.

Lemma session_key_in_session (s : SummaryRow) (r : Row) :
  session_key r = Val (summary_key s) <-> in_session s r.
Proof.
  unfold session_key, summary_key, in_session, SessionKey.
  rewrite cell_pair_Val, cell_pair_Val. tauto.
Qed.

Lemma answer_key_has_combination (t : TotalsRow) (r : Row) :
  answer_key r = Val (totals_key t) <-> has_combination t r.
Proof.
  unfold answer_key, session_key, totals_key, has_combination.
  unfold AnswerKey, SessionKey.
  rewrite !cell_pair_Val. tauto.
Qed.

(** ** [groupby] *)

Section GroupBy.

Context {K : Type} `{Key K} (key : Row -> cell K).

Lemma key_eqb_true (a b : K) : key_eqb a b = true <-> a = b.
Proof.
  unfold key_eqb. destruct (key_eq_dec a b); split; congruence.
Qed.

Lemma insert_key_perm (k : K) (l : list K) :
  Permutation (insert_key k l) (k :: l).
Proof.
  induction l as [| h rest IH]; simpl.
  - apply Permutation_refl.
  - destruct (key_leb k h).
    + apply Permutation_refl.
    + eapply perm_trans; [apply perm_skip, IH | apply perm_swap].
Qed.

Lemma sort_keys_perm (l : list K) : Permutation (sort_keys l) l.
Proof.
  induction l as [| k l IH]; simpl.
  - constructor.
  - eapply perm_trans; [apply insert_key_perm | now apply perm_skip].
Qed.

(** The groups come out in ascending key order, as [sort=True] has it. *)
Lemma insert_key_sorted (k : K) (l : list K) :
  Sorted (fun a b => key_leb a b = true) l ->
  Sorted (fun a b => key_leb a b = true) (insert_key k l).
Proof.
  induction l as [| h rest IH]; intros Hsorted; simpl.
  - repeat constructor.
  - destruct (key_leb k h) eqn:E.
    + constructor; [exact Hsorted | now constructor].
    + inversion Hsorted as [| ? ? Hrest Hhd]; subst.
      constructor; [now apply IH |].
      assert (Hhk : key_leb h k = true)
        by (destruct (key_leb_total k h); congruence).
      destruct rest as [| h' rest']; simpl.
      * now constructor.
      * destruct (key_leb k h'); constructor; [exact Hhk |].
        now inversion Hhd.
Qed.

Lemma sort_keys_sorted (l : list K) :
  Sorted (fun a b => key_leb a b = true) (sort_keys l).
Proof.
  induction l as [| k l IH]; simpl.
  - constructor.
  - now apply insert_key_sorted.
Qed.

Lemma group_keys_sorted (df : DataFrame) :
  Sorted (fun a b => key_leb a b = true) (group_keys key df).
Proof.
  apply sort_keys_sorted.
Qed.

Lemma group_keys_NoDup (df : DataFrame) : NoDup (group_keys key df).
Proof.
  unfold group_keys.
  eapply Permutation_NoDup.
  - apply Permutation_sym, sort_keys_perm.
  - apply NoDup_nodup.
Qed.

Lemma group_keys_In (df : DataFrame) (k : K) :
  In k (group_keys key df) <-> exists r, In r df /\ key r = Val k.
Proof.
  unfold group_keys. split.
  - intros Hin.
    apply (Permutation_in _ (sort_keys_perm _)) in Hin.
    apply nodup_In, In_dropna, in_map_iff in Hin.
    destruct Hin as (r & Hk & Hr). now exists r.
  - intros (r & Hr & Hk).
    apply (Permutation_in _ (Permutation_sym (sort_keys_perm _))).
    apply nodup_In, In_dropna, in_map_iff. now exists r.
Qed.

Lemma get_group_In (df : DataFrame) (k : K) (r : Row) :
  In r (get_group key k df) <-> In r df /\ key r = Val k.
Proof.
  unfold get_group. rewrite filter_In.
  destruct (key r) as [| k']; simpl.
  - split; intros [_ E]; discriminate.
  - rewrite key_eqb_true. split; intros [Hr E]; split; congruence.
Qed.

Lemma get_group_nonempty (df : DataFrame) (k : K) :
  In k (group_keys key df) -> 1 <= List.length (get_group key k df).
Proof.
  intros Hin. apply group_keys_In in Hin. destruct Hin as (r & Hr & Hk).
  assert (Hg : In r (get_group key k df)) by now apply get_group_In.
  destruct (get_group key k df); [contradiction | simpl; lia].
Qed.

End GroupBy.

(** ** Sums over the groups *)

Lemma list_sum_perm (l l' : list nat) :
  Permutation l l' -> list_sum l = list_sum l'.
Proof.
  induction 1; simpl; lia.
Qed.

Lemma list_sum_pointwise (A : Type) (f g : A -> nat) (l : list A) :
  list_sum (map (fun x => f x + g x) l)
  = list_sum (map f l) + list_sum (map g l).
Proof.
  induction l as [| a l IH]; simpl; lia.
Qed.

Lemma list_sum_zero (A : Type) (f : A -> nat) (l : list A) :
  (forall x, In x l -> f x = 0) -> list_sum (map f l) = 0.
Proof.
  induction l as [| a l IH]; intros Hzero; simpl.
  - reflexivity.
  - rewrite (Hzero a (or_introl eq_refl)), IH; [reflexivity |].
    intros x Hx. apply Hzero. now right.
Qed.

Section GroupSums.

Context {K : Type} `{Key K} (key : Row -> cell K) (keep : Row -> bool).

(** A key that is listed once is hit once. *)
Lemma one_group_per_key (k0 : K) (ks : list K) :
  NoDup ks -> In k0 ks ->
  list_sum (map (fun k => if key_eqb k0 k then 1 else 0) ks) = 1.
Proof.
  induction ks as [| k ks IH]; intros Hnd Hin; [contradiction |].
  inversion Hnd as [| ? ? Hnotin Hnd']; subst. simpl.
  destruct (key_eqb k0 k) eqn:E.
  - apply key_eqb_true in E. subst k.
    rewrite list_sum_zero; [reflexivity |].
    intros x Hx. destruct (key_eqb k0 x) eqn:Ex; [| reflexivity].
    apply key_eqb_true in Ex. subst x. contradiction.
  - destruct Hin as [E' | Hin].
    + subst k. assert (key_eqb k0 k0 = true) by now apply key_eqb_true.
      congruence.
    + now rewrite IH.
Qed.

(** Every kept row with a present key is counted in exactly one group. *)
Lemma group_sizes_sum (ks : list K) (df : DataFrame) :
  NoDup ks ->
  (forall r k, In r df -> key r = Val k -> In k ks) ->
  list_sum (map (fun k => List.length (filter keep (get_group key k df))) ks)
  = List.length (filter (fun r => present (key r) && keep r) df).
Proof.
  intros Hnd. induction df as [| r df IH]; intros Hcover.
  - simpl. now apply list_sum_zero.
  - assert (Hcover' : forall r' k, In r' df -> key r' = Val k -> In k ks).
    { intros r' k Hr'. apply Hcover. now right. }
    specialize (IH Hcover').
    transitivity
      (list_sum (map (fun k =>
         (if cell_eq key_eqb (key r) (Val k) && keep r then 1 else 0)
         + List.length (filter keep (get_group key k df))) ks)).
    { f_equal. apply map_ext. intros k. unfold get_group. simpl.
      destruct (cell_eq key_eqb (key r) (Val k)); simpl; [| reflexivity].
      destruct (keep r); reflexivity. }
    rewrite list_sum_pointwise, IH. simpl.
    destruct (key r) as [| k0] eqn:Ek; simpl.
    + now rewrite list_sum_zero.
    + destruct (keep r); simpl.
      * rewrite (@map_ext _ _ _ (fun k => if key_eqb k0 k then 1 else 0)).
        -- rewrite one_group_per_key; [reflexivity | exact Hnd |].
           apply (Hcover r k0); [now left | exact Ek].
        -- intros k. now rewrite andb_true_r.
      * rewrite list_sum_zero; [reflexivity |].
        intros k _. now rewrite andb_false_r.
Qed.

End GroupSums.

(** ** The session summary *)

Lemma summary_key_agg_session (df : DataFrame) (k : SessionKey) :
  summary_key (agg_session df k) = k.
Proof.
  destruct k as [d [m t]]. reflexivity.
Qed.

Lemma session_groups_keys (df : DataFrame) :
  map summary_key (session_groups df) = group_keys session_key df.
Proof.
  unfold session_groups. rewrite map_map.
  rewrite (map_ext _ (fun k => k)) by apply summary_key_agg_session.
  apply map_id.
Qed.

Lemma get_session_summary_perm (S : SortValues) (df : DataFrame) :
  Permutation (get_session_summary df) (session_groups df).
Proof.
  apply sort_values_perm.
Qed.

Lemma get_session_summary_In (S : SortValues) (df : DataFrame) (s : SummaryRow) :
  In s (get_session_summary df)
  <-> exists k, In k (group_keys session_key df) /\ s = agg_session df k.
Proof.
  split.
  - intros Hin.
    apply (Permutation_in _ (get_session_summary_perm S df)) in Hin.
    apply in_map_iff in Hin. destruct Hin as (k & Hs & Hk). now exists k.
  - intros (k & Hk & Hs).
    apply (Permutation_in _ (Permutation_sym (get_session_summary_perm S df))).
    apply in_map_iff. now exists k.
Qed.

(** C2, as the code has it.  The summary holds exactly one row per distinct
    triple of present (webinar date, month-year, title) values of the table;
    that row describes the rows of its session, and holds the number of
    distinct names present, the number of distinct questions present, and the
    number of those rows whose answer is present, which is the row count of
    the session whenever no answer of the session is missing. *)
Theorem session_summary_rows (S : SortValues) (df : DataFrame) :
  NoDup (map summary_key (get_session_summary df))
  /\ (forall k, In k (map summary_key (get_session_summary df))
                <-> exists r, In r df /\ session_key r = Val k)
  /\ (forall s, In s (get_session_summary df) ->
        let g := get_group session_key (summary_key s) df in
        (forall r, In r g <-> In r df /\ in_session s r)
        /\ distinct_count (map name g) (unique_respondents s)
        /\ distinct_count (map question g) (unique_questions s)
        /\ total_responses s
           = List.length (filter (fun r => present (answer r)) g)
        /\ ((forall r, In r g -> answer r <> NaN)
            -> total_responses s = List.length g)).
Proof.
  pose proof (get_session_summary_perm S df) as Hperm.
  assert (Hkeys : Permutation (map summary_key (get_session_summary df))
                              (group_keys session_key df)).
  { rewrite <- session_groups_keys. now apply Permutation_map. }
  split; [| split].
  - eapply Permutation_NoDup.
    + apply Permutation_sym, Hkeys.
    + apply group_keys_NoDup.
  - intros k. rewrite <- group_keys_In. split; intros Hin.
    + now apply (Permutation_in _ Hkeys).
    + now apply (Permutation_in _ (Permutation_sym Hkeys)).
  - intros s Hs g.
    apply get_session_summary_In in Hs. destruct Hs as (k & Hk & Hs).
    assert (Hg : g = get_group session_key k df).
    { unfold g. now rewrite Hs, summary_key_agg_session. }
    assert (Hcount : total_responses s
                     = List.length (filter (fun r => present (answer r)) g)).
    { rewrite Hg, Hs. simpl. apply count_as_filter. }
    split; [| split; [| split; [| split]]].
    + intros r. unfold g. rewrite get_group_In, session_key_in_session.
      reflexivity.
    + rewrite Hg, Hs. simpl. apply nunique_distinct_count.
    + rewrite Hg, Hs. simpl. apply nunique_distinct_count.
    + exact Hcount.
    + intros Hall. rewrite Hcount. f_equal. apply filter_all.
      intros r Hr. specialize (Hall r Hr).
      destruct (answer r); [contradiction | reflexivity].
Qed.

(** C2 as stated fails: in [unanswered_table] the one session has one row,
    and its summary row reports zero responses. *)
Lemma total_responses_is_not_row_count :
  ~ (forall (S : SortValues) (df : DataFrame) (s : SummaryRow),
       In s (get_session_summary df) ->
       total_responses s
       = List.length (get_group session_key (summary_key s) df)).
Proof.
  intros Hclaim.
  specialize (Hclaim stable_sort_values unanswered_table
                (agg_session unanswered_table
                   (20240115%Z, ("Jan 2024"%string, "Housing"%string)))).
  specialize (Hclaim (or_introl eq_refl)).
  vm_compute in Hclaim. discriminate.
Qed.

(** C4, as the code has it.  The "Total Responses" column sums to the number
    of rows of the table whose three session columns and answer are all
    present; for a table without missing values in those columns, that is
    the number of rows of the table. *)
Theorem total_responses_sum (S : SortValues) (df : DataFrame) :
  list_sum (map total_responses (get_session_summary df))
  = List.length (filter counted df)
  /\ ((forall r, In r df -> counted r = true)
      -> list_sum (map total_responses (get_session_summary df))
         = List.length df).
Proof.
  assert (Hsum : list_sum (map total_responses (get_session_summary df))
                 = List.length (filter counted df)).
  { rewrite (list_sum_perm
               (Permutation_map total_responses (get_session_summary_perm S df))).
    unfold session_groups. rewrite map_map. simpl.
    rewrite (map_ext _ (fun k => List.length
               (filter (fun r => present (answer r))
                       (get_group session_key k df))))
      by (intros k; apply count_as_filter).
    apply group_sizes_sum.
    - apply group_keys_NoDup.
    - intros r k Hr Hk. apply group_keys_In. now exists r. }
  split; [exact Hsum |].
  intros Hall. rewrite Hsum. f_equal. now apply filter_all.
Qed.

(** C4 as stated fails: [unanswered_table] has one row and its summary sums
    to zero responses. *)
Lemma total_responses_sum_is_not_len :
  ~ (forall (S : SortValues) (df : DataFrame),
       list_sum (map total_responses (get_session_summary df))
       = List.length df).
Proof.
  intros Hclaim.
  specialize (Hclaim stable_sort_values unanswered_table).
  vm_compute in Hclaim. discriminate.
Qed.

(** ** The question totals *)

Lemma get_group_occurrences (K : Type) `{Key K} (key : Row -> cell K) (k : K)
    (df : DataFrame) :
  List.length (get_group key k df) = occurrences key k df.
Proof.
  unfold get_group, occurrences. induction df as [| r df IH]; simpl.
  - reflexivity.
  - destruct (cell_eq_dec (key r) (Val k)) as [E | E].
    + rewrite E. simpl.
      assert (Hk : key_eqb k k = true) by now apply key_eqb_true.
      rewrite Hk. simpl. now rewrite IH.
    + destruct (cell_eq key_eqb (key r) (Val k)) eqn:Eq; [| exact IH].
      exfalso. apply E. destruct (key r) as [| k']; simpl in Eq.
      * discriminate.
      * apply key_eqb_true in Eq. now subst.
Qed.

Lemma totals_key_size_group (df : DataFrame) (k : AnswerKey) :
  totals_key (size_group df k) = k.
Proof.
  destruct k as [[d [m t]] [q a]]. reflexivity.
Qed.

Lemma answer_groups_keys (df : DataFrame) :
  map totals_key (answer_groups df) = group_keys answer_key df.
Proof.
  unfold answer_groups. rewrite map_map.
  rewrite (map_ext _ (fun k => k)) by apply totals_key_size_group.
  apply map_id.
Qed.

Lemma get_question_totals_perm (S : SortValues) (df : DataFrame)
    (session_filter : option (cell string)) :
  Permutation (get_question_totals df session_filter)
              (answer_groups (restrict_session df session_filter)).
Proof.
  apply sort_values_perm.
Qed.

Lemma loc_eq_In (col : Row -> cell string) (v : cell string) (df : DataFrame)
    (r : Row) :
  In r (loc_eq col v df) <-> In r df /\ satisfies col v r.
Proof.
  unfold loc_eq, satisfies. now rewrite filter_In, cell_eq_string_true.
Qed.

(** One row per combination, with its number of occurrences, whatever table
    is grouped. *)
Lemma answer_groups_rows (S : SortValues) (df : DataFrame)
    (session_filter : option (cell string)) :
  let rows := restrict_session df session_filter in
  let totals := get_question_totals df session_filter in
  NoDup (map totals_key totals)
  /\ (forall k, In k (map totals_key totals)
                <-> exists r, In r rows /\ answer_key r = Val k)
  /\ (forall t, In t totals ->
        (forall r, In r (get_group answer_key (totals_key t) rows)
                   <-> In r rows /\ has_combination t r)
        /\ t_count t = occurrences answer_key (totals_key t) rows
        /\ 1 <= t_count t).
Proof.
  intros rows totals.
  pose proof (get_question_totals_perm S df session_filter) as Hperm.
  fold rows in Hperm. fold totals in Hperm.
  assert (Hkeys : Permutation (map totals_key totals)
                              (group_keys answer_key rows)).
  { rewrite <- answer_groups_keys. now apply Permutation_map. }
  split; [| split].
  - eapply Permutation_NoDup.
    + apply Permutation_sym, Hkeys.
    + apply group_keys_NoDup.
  - intros k. rewrite <- group_keys_In. split; intros Hin.
    + now apply (Permutation_in _ Hkeys).
    + now apply (Permutation_in _ (Permutation_sym Hkeys)).
  - intros t Ht.
    apply (Permutation_in _ Hperm), in_map_iff in Ht.
    destruct Ht as (k & Ht & Hk).
    assert (Hkey : totals_key t = k)
      by (rewrite <- Ht; apply totals_key_size_group).
    split; [| split].
    + intros r. now rewrite get_group_In, answer_key_has_combination.
    + rewrite Hkey, <- get_group_occurrences. now rewrite <- Ht.
    + rewrite <- Ht. simpl. now apply get_group_nonempty.
Qed.

Lemma py_bool_nonempty (s : string) :
  s <> ""%string -> py_bool (Val s) = true.
Proof.
  intros Hne. simpl. apply negb_true_iff. now apply String.eqb_neq.
Qed.

(** C3, as the code has it.  A session label other than the empty string
    restricts the table to the rows with that label, so that every output row
    carries it (the missing value as label leaves no row); without a label
    all rows are used; the totals then hold one row per distinct combination
    of present (webinar date, month-year, title, question, answer) values of
    the rows in use, with the number of rows that carry the combination as
    its count. *)
Theorem question_totals_rows (S : SortValues) (df : DataFrame)
    (session_filter : option (cell string)) :
  let rows := restrict_session df session_filter in
  let totals := get_question_totals df session_filter in
  (forall s, session_filter = Some (Val s) -> s <> ""%string ->
     (forall r, In r rows <-> In r df /\ month_year r = Val s)
     /\ (forall t, In t totals -> t_month_year t = s))
  /\ (session_filter = Some NaN -> rows = [] /\ totals = [])
  /\ (session_filter = None -> rows = df)
  /\ NoDup (map totals_key totals)
  /\ (forall k, In k (map totals_key totals)
                <-> exists r, In r rows /\ answer_key r = Val k)
  /\ (forall t, In t totals ->
        (forall r, In r (get_group answer_key (totals_key t) rows)
                   <-> In r rows /\ has_combination t r)
        /\ t_count t = occurrences answer_key (totals_key t) rows
        /\ 1 <= t_count t).
Proof.
  intros rows totals.
  destruct (answer_groups_rows S df session_filter) as (Hnd & Hin & Hrow).
  fold rows in Hin, Hrow. fold totals in Hnd, Hin, Hrow.
  split; [| split; [| split; [| split; [| split]]]];
    [| | intros E; unfold rows; now rewrite E | exact Hnd | exact Hin
     | exact Hrow].
  - intros s Hsome Hne.
    assert (Hrows : rows = loc_eq month_year (Val s) df).
    { unfold rows, restrict_session.
      now rewrite Hsome, (py_bool_nonempty Hne). }
    assert (Hmem : forall r, In r rows <-> In r df /\ month_year r = Val s).
    { intros r. rewrite Hrows, loc_eq_In. unfold satisfies. split.
      - intros (Hr & s' & Hv & Hc). inversion Hv; subst. tauto.
      - intros [Hr Hc]. split; [exact Hr |]. now exists s. }
    split; [exact Hmem |].
    intros t Ht.
    assert (Hk : In (totals_key t) (map totals_key totals))
      by now apply in_map.
    apply Hin in Hk. destruct Hk as (r & Hr & Hkey).
    apply answer_key_has_combination in Hkey.
    destruct Hkey as (_ & Hlabel & _).
    apply Hmem in Hr. destruct Hr as [_ Hc]. congruence.
  - intros Hnan.
    assert (Hrows : rows = []).
    { unfold rows, restrict_session. rewrite Hnan. simpl.
      apply filter_none. intros r _. destruct (month_year r); reflexivity. }
    split; [exact Hrows |].
    apply Permutation_nil.
    pose proof (get_question_totals_perm S df session_filter) as Hperm.
    fold totals in Hperm. fold rows in Hperm. rewrite Hrows in Hperm.
    now apply Permutation_sym.
Qed.

(** C3 as stated fails: given the empty label the totals of [january_table]
    are those of the whole table, whose rows are labelled "Jan 2024". *)
Lemma empty_label_rows_carry_other_labels :
  ~ (forall (S : SortValues) (df : DataFrame) (s : string) (t : TotalsRow),
       In t (get_question_totals df (Some (Val s))) -> t_month_year t = s).
Proof.
  intros Hclaim.
  specialize (Hclaim stable_sort_values january_table ""%string
                (mkTotalsRow 20240115 "Jan 2024" "Housing" "Top priority?" "A" 3)).
  assert (Hin : In (mkTotalsRow 20240115 "Jan 2024" "Housing" "Top priority?" "A" 3)
                   (@get_question_totals stable_sort_values january_table
                      (Some (Val ""%string))))
    by (vm_compute; left; reflexivity).
  specialize (Hclaim Hin). discriminate.
Qed.

(** C10.  The empty string as session filter, like every value that is false
    in Python's sense, gives the totals of the unfiltered call: the table is
    not restricted, and every combination of the whole table is reported,
    whatever labels the table holds. *)
Theorem falsy_session_filter_is_no_filter (S : SortValues) (df : DataFrame) :
  get_question_totals df (Some (Val ""%string)) = get_question_totals df None
  /\ restrict_session df (Some (Val ""%string)) = df
  /\ (forall v, py_bool v = false ->
        get_question_totals df (Some v) = get_question_totals df None)
  /\ (forall k, In k (map totals_key
                        (get_question_totals df (Some (Val ""%string))))
                <-> exists r, In r df /\ answer_key r = Val k).
Proof.
  assert (Hfalsy : forall v, py_bool v = false ->
            get_question_totals df (Some v) = get_question_totals df None).
  { intros v Hv. unfold get_question_totals, restrict_session.
    now rewrite Hv. }
  split; [now apply Hfalsy | split; [reflexivity | split; [exact Hfalsy |]]].
  intros k.
  destruct (answer_groups_rows S df (Some (Val ""%string))) as (_ & Hin & _).
  exact (Hin k).
Qed.

(** ** A value that is not in the table *)

Lemma apply_filters_absent_respondent (df : DataFrame) (sel : Selection) :
  active ALL_RESPONDENTS (selected_respondent sel) ->
  ~ In (selected_respondent sel) (map name df) ->
  apply_filters df sel = [].
Proof.
  intros Hact Habsent.
  rewrite apply_filters_as_filter. apply filter_none. intros r Hr.
  destruct (row_ok sel r) eqn:E; [| reflexivity]. exfalso.
  unfold row_ok in E. rewrite !andb_true_iff in E.
  destruct E as [[[_ _] Hname] _].
  destruct (proj1 (step_ok_spec _ _ _ _) Hname Hact) as (s & Hsel & Hcell).
  apply Habsent, in_map_iff. exists r. split; congruence.
Qed.

(** Nobody called "Nobody" answered in [january_table]: filtering on that
    name leaves no row. *)
Lemma absent_respondent_witness :
  ~ In (Val "Nobody"%string) (map name january_table)
  /\ loc_eq name (Val "Nobody"%string) january_table = []
  /\ (forall sentinel, active sentinel (Val "Nobody"%string) ->
        filter_step sentinel name (Val "Nobody"%string) january_table = []).
Proof.
  assert (Habsent : ~ In (Val "Nobody"%string) (map name january_table)).
  { simpl. intros [E | [E | [E | [E | []]]]]; discriminate. }
  split; [exact Habsent |].
  exact (@absent_value_empty_table name (Val "Nobody"%string) january_table
           Habsent).
Defined.

(** ** Loading *)

Section LoaderFacts.

Variable parse_csv : string -> string + DataFrame.

Lemma read_csv_not_found (path : PathState) :
  read_csv parse_csv path = inl FileNotFoundError <-> path = Absent.
Proof.
  destruct path as [| reason | contents]; simpl.
  - tauto.
  - split; discriminate.
  - destruct (parse_csv contents); split; discriminate.
Qed.

Lemma load_data_memoized (path : PathState) (df : DataFrame) :
  load_data parse_csv path (Some df) = (inr df, Some df).
Proof.
  reflexivity.
Qed.

Lemma load_data_first_call (path : PathState) :
  load_data parse_csv path None
  = match read_csv parse_csv path with
    | inr df => (inr df, Some df)
    | inl e => (inl e, None)
    end.
Proof.
  reflexivity.
Qed.

Lemma load_data_failure (path : PathState) (cache : Cache) (e : Exception) :
  fst (load_data parse_csv path cache) = inl e ->
  cache = None /\ read_csv parse_csv path = inl e.
Proof.
  destruct cache as [df |]; simpl.
  - discriminate.
  - destruct (read_csv parse_csv path); simpl; intros E;
      [split; congruence | discriminate].
Qed.

End LoaderFacts.

(** C8, as the code has it.  A call of [load_data] that reads the source,
    because no table is memoized yet, fails with [FileNotFoundError] exactly
    when the file is absent; a call that finds a memoized table returns it
    whatever the state of the file.  A failure reaches the caller as the
    exception itself: no table comes with it, nothing is memoized, and the
    load step of [main] shows no table; for [FileNotFoundError] it reports
    the message and stops. *)
Theorem load_data_not_found (parse_csv : string -> string + DataFrame)
    (path : PathState) (cache : Cache) :
  (fst (load_data parse_csv path None) = inl FileNotFoundError
   <-> path = Absent)
  /\ (fst (load_data parse_csv path cache) = inl FileNotFoundError
      <-> path = Absent /\ cache = None)
  /\ (forall df, cache = Some df ->
        load_data parse_csv path cache = (inr df, Some df))
  /\ (forall e, fst (load_data parse_csv path cache) = inl e ->
        snd (load_data parse_csv path cache) = None
        /\ (forall df, fst (load_data parse_csv path cache) <> inr df)
        /\ (forall df n m,
              fst (main_load parse_csv path cache) <> Proceeds df n m)
        /\ (e = FileNotFoundError ->
              fst (main_load parse_csv path cache) = Halted NOT_FOUND_MESSAGE)).
Proof.
  split; [| split; [| split]].
  - rewrite load_data_first_call, <- (read_csv_not_found parse_csv path).
    destruct (read_csv parse_csv path); simpl; split; congruence.
  - split.
    + intros E. apply load_data_failure in E. destruct E as [Hc Hr].
      now apply read_csv_not_found in Hr.
    + intros [Hp Hc]. now subst.
  - intros df E. subst. apply load_data_memoized.
  - intros e E.
    destruct (load_data_failure parse_csv path cache E) as [Hc Hr].
    subst cache. unfold main_load. rewrite load_data_first_call in *.
    rewrite Hr. simpl. repeat split.
    + discriminate.
    + intros df n m. destruct e; discriminate.
    + intros He. now subst.
Qed.

(** C8 as stated fails: once a table is memoized, [load_data] returns it
    although the file is gone. *)
Lemma memoized_table_outlives_the_file :
  ~ (forall (parse_csv : string -> string + DataFrame) (path : PathState)
            (cache : Cache),
       fst (load_data parse_csv path cache) = inl FileNotFoundError
       <-> path = Absent).
Proof.
  intros Hclaim.
  destruct (Hclaim (fun _ => inl ""%string) Absent (Some january_table))
    as [_ Hfails].
  specialize (Hfails eq_refl). discriminate.
Qed.

(** ** The statements at the sample tables *)

(** The summary of [january_table] under the stable sort: its one row is the
    session of January, with four respondents, one question and four
    answers. *)
Lemma session_summary_rows_witness :
  @get_session_summary stable_sort_values january_table
  = [mkSummaryRow 20240115 "Jan 2024" "Housing" 4 1 4]
  /\ NoDup (map summary_key
              (@get_session_summary stable_sort_values january_table)).
Proof.
  split; [reflexivity |].
  exact (proj1 (session_summary_rows stable_sort_values january_table)).
Defined.

(** The four responses of [january_table] are all counted. *)
Lemma total_responses_sum_witness :
  list_sum (map total_responses
              (@get_session_summary stable_sort_values january_table))
  = List.length (filter counted january_table)
  /\ List.length (filter counted january_table) = 4.
Proof.
  split; [| reflexivity].
  exact (proj1 (total_responses_sum stable_sort_values january_table)).
Defined.

(** Asked for January, the totals of [two_month_table] leave February
    out: one row for answer A, one for answer B, both labelled "Jan 2024". *)
Lemma question_totals_rows_witness :
  @get_question_totals stable_sort_values two_month_table
     (Some (Val "Jan 2024"%string))
  = [mkTotalsRow 20240115 "Jan 2024" "Housing" "Top priority?" "A" 1;
     mkTotalsRow 20240115 "Jan 2024" "Housing" "Top priority?" "B" 1]
  /\ (forall r, In r (restrict_session two_month_table
                        (Some (Val "Jan 2024"%string)))
                <-> In r two_month_table
                    /\ month_year r = Val "Jan 2024"%string)
  /\ (forall t, In t (@get_question_totals stable_sort_values two_month_table
                        (Some (Val "Jan 2024"%string))) ->
                t_month_year t = "Jan 2024"%string).
Proof.
  split; [reflexivity |].
  assert (Hne : "Jan 2024"%string <> ""%string) by discriminate.
  exact (proj1 (question_totals_rows stable_sort_values two_month_table
                  (Some (Val "Jan 2024"%string)))
           "Jan 2024"%string eq_refl Hne).
Defined.

(** The empty label and no label give the same totals of [january_table]. *)
Lemma falsy_session_filter_witness :
  @get_question_totals stable_sort_values january_table (Some (Val ""%string))
  = @get_question_totals stable_sort_values january_table None.
Proof.
  exact (proj1 (falsy_session_filter_is_no_filter stable_sort_values
                  january_table)).
Defined.

(** * The rest of [main]: option lists, metrics, the tabs *)

(** ** More pandas and Python operations *)

(** [drop_duplicates()] / [unique()]: the first occurrence of every value, in
    order of appearance.  Missing values count as equal to each other here
    (unlike under [==]), so at most one of them is kept. *)
Fixpoint drop_duplicates_from {A : Type} (dec : forall a b : A, {a = b} + {a <> b})
    (seen : list A) (l : list A) : list A :=
  match l with
  | [] => []
  | x :: rest =>
      if in_dec dec x seen then drop_duplicates_from dec seen rest
      else x :: drop_duplicates_from dec (x :: seen) rest
  end.

Definition drop_duplicates {A : Type} (dec : forall a b : A, {a = b} + {a <> b})
    (l : list A) : list A :=
  drop_duplicates_from dec [] l.

Definition unique (col : list (cell string)) : list (cell string) :=
  drop_duplicates cell_eq_dec col.

(** [head(n)]. *)
Definition head {A : Type} (n : nat) (l : list A) : list A := firstn n l.

(** Python's built-in [sorted] on what [unique()] returns for a column of
    text (dtype [object]: [str] values, and [float] NaN for the empty
    cells).  Strings sort in ascending order; a list of missing values only
    compares without error and stays as it is; a list that holds a missing
    value and a string makes [sorted] compare a [float] with a [str], which
    raises.  A column in which [read_csv] finds nothing but numbers is
    numeric instead: its values sort by magnitude and a missing one raises
    nothing, so of such a column the model gives the values on offer, not
    their order nor the exception. *)
Inductive PyError : Type :=
| TypeError.

Definition py_sorted (values : list (cell string))
    : PyError + list (cell string) :=
  if forallb present values then inr (map Val (sort_keys (dropna values)))
  else if forallb (fun c => negb (present c)) values then inr values
  else inl TypeError.

(** [sort_values("Webinar Date")] on a frame whose date column may hold
    missing values: the rows with a date in ascending order (default kind, so
    rows of equal date in no promised order), then the rows without one, in
    table order ([na_position="last"]). *)
Definition date_or_zero (c : cell Z) : Z :=
  match c with
  | NaN => 0%Z
  | Val d => d
  end.

Definition sort_values_asc_na_last `{SortValues} {A : Type} (by_col : A -> cell Z)
    (l : list A) : list A :=
  sort_values_desc (fun x => (- date_or_zero (by_col x))%Z)
                   (filter (fun x => present (by_col x)) l)
  ++ filter (fun x => negb (present (by_col x))) l.

(** ** The select boxes ([main], lines 72-93 and 198-212) *)

Definition pair_cell_eq_dec (p q : cell Z * cell string) : {p = q} + {p <> q}.
Proof.
  destruct p as [a b], q as [c d].
  destruct (cell_eq_dec a c) as [Hac | Hac].
  - destruct (cell_eq_dec b d) as [Hbd | Hbd].
    + left. now subst.
    + right. intros E. now inversion E.
  - right. intros E. now inversion E.
Defined.

(** [sessions]: the labels of the distinct (date, label) pairs, by date. *)
Definition sessions `{SortValues} (df : DataFrame) : list (cell string) :=
  let session_dates :=
    drop_duplicates pair_cell_eq_dec
      (map (fun r => (webinar_date r, month_year r)) df) in
  let session_dates := sort_values_asc_na_last fst session_dates in
  map snd session_dates.

Definition session_options `{SortValues} (df : DataFrame) : list (cell string) :=
  Val ALL_SESSIONS :: sessions df.

(** [[sentinel] + sorted(frame[col].unique())], for the question, respondent
    and city boxes. *)
Definition column_options (sentinel : string) (col : Row -> cell string)
    (frame : DataFrame) : PyError + list (cell string) :=
  match py_sorted (unique (map col frame)) with
  | inl e => inl e
  | inr values => inr (Val sentinel :: values)
  end.

(** ** Tab 1: the metrics ([main], lines 108-125) *)

Definition table_height `{SortValues} (df : DataFrame) : nat :=
  List.length (get_session_summary df) * 35 + 38.

Definition total_sessions `{SortValues} (df : DataFrame) : nat :=
  List.length (sessions df).

Definition total_respondents (df : DataFrame) : nat := nunique (map name df).

Definition total_responses_metric (df : DataFrame) : nat := List.length df.

(** ** Tab 2: the question totals by session and question
    ([main], lines 132-175) *)

(** [None if selected_session == "All Sessions" else selected_session]. *)
Definition session_filter_of (selected_session : cell string)
    : option (cell string) :=
  if cell_eq String.eqb selected_session (Val ALL_SESSIONS) then None
  else Some selected_session.

Definition main_question_totals `{SortValues} (df : DataFrame)
    (selected_session : cell string) : list TotalsRow :=
  get_question_totals df (session_filter_of selected_session).

Definition totals_session (t : TotalsRow) : SessionKey :=
  (t_webinar_date t, (t_month_year t, t_webinar_title t)).

Definition sessions_in_view (question_totals : list TotalsRow)
    : list SessionKey :=
  drop_duplicates key_eq_dec (map totals_session question_totals).

(** The rows of one session: the conjunction of the three column masks. *)
Definition session_data (question_totals : list TotalsRow) (k : SessionKey)
    : list TotalsRow :=
  filter (fun t => (t_webinar_date t =? fst k)%Z
                   && String.eqb (t_month_year t) (fst (snd k))
                   && String.eqb (t_webinar_title t) (snd (snd k)))
         question_totals.

Definition questions_in_session (data : list TotalsRow) : list string :=
  drop_duplicates string_dec (map t_question data).

Definition question_data (data : list TotalsRow) (q : string)
    : list TotalsRow :=
  filter (fun t => String.eqb (t_question t) q) data.

(** [total = question_data["Count"].sum()], the divisor of the
    percentages. *)
Definition total (data : list TotalsRow) : nat := list_sum (map t_count data).

(** One expander of the tab: its session, its question and its rows. *)
Definition Expander : Type := SessionKey * string * list TotalsRow.

Definition expanders (question_totals : list TotalsRow) : list Expander :=
  flat_map
    (fun k =>
       let data := session_data question_totals k in
       map (fun q => (k, q, question_data data q)) (questions_in_session data))
    (sessions_in_view question_totals).

(** *** The percentages ([main], lines 166-170)

    [question_data["Count"] / total * 100] divides an [int64] column by an
    [int64] sum: numpy converts both to [float64], and the division and the
    multiplication are binary64 operations, rounded to nearest, ties to
    even.  [.round(1)] is numpy's rounding to a number of decimals: multiply
    by the power of ten, [rint], divide by the power of ten.  The
    operations are those of [PrimFloat]; [to_float64] and [rint], which it
    does not have, are written on [SpecFloat], the specification of the
    format. *)

(** The conversion of an integer to [float64]: the nearest binary64
    number. *)
Definition to_float64 (n : Z) : float :=
  SF2Prim (binary_normalize prec emax n 0 false).

(** [rint] on the specification: the integer nearest to the value, the even
    one of two that are equally near; a zero result keeps the sign of the
    argument.  A value whose exponent is not negative is an integer
    already, and zeros, infinities and NaN are returned as they are. *)
Definition SFrint (x : spec_float) : spec_float :=
  match x with
  | S754_finite s m (Zneg n) =>
      let mrs := SpecFloat.iter_pos shr_1 n (shr_record_of_loc (Zpos m) loc_Exact) in
      binary_normalize prec emax
        (cond_Zopp s (round_nearest_even (shr_m mrs) (loc_of_shr_record mrs))) 0 s
  | _ => x
  end.

Definition rint (x : float) : float := SF2Prim (SFrint (Prim2SF x)).

(** [x.round(1)]. *)
Definition round1 (x : float) : float := (rint (x * 10) / 10)%float.

(** One cell of [(question_data["Count"] / total * 100).round(1)], for the
    count [c] and the sum [t]. *)
Definition percentage (c t : nat) : float :=
  round1 (to_float64 (Z.of_nat c) / to_float64 (Z.of_nat t) * 100)%float.

(** The [Percentage] column of an expander. *)
Definition percentages (data : list TotalsRow) : list float :=
  map (fun r => percentage (t_count r) (total data)) data.

(** The real number a finite binary64 value stands for.  Infinities and NaN
    stand for no number; the statements below give every percentage as a
    quotient of finite values before they speak of its real value. *)
Definition SF2R (x : spec_float) : R :=
  match x with
  | S754_finite s m e => (IZR (cond_Zopp s (Zpos m)) * powerRZ 2 e)%R
  | _ => 0%R
  end.

Definition F2R (x : float) : R := SF2R (Prim2SF x).

Definition Rsum (l : list R) : R := fold_right Rplus 0%R l.

(** [2 ^ -52], which bounds the relative error of one rounding of a normal
    number. *)
Definition ulp_rel : R := (/ 4503599627370496)%R.

(** [x] is [v] up to the relative error [a]. *)
Definition rel (a x v : R) : Prop := (v - a * v <= x <= v + a * v)%R.

(** A positive normal number with its exponent in a range. *)
Definition normal_in (lo hi : Z) (x : spec_float) : Prop :=
  exists m e,
    x = S754_finite false m e /\ (2 ^ 52 <= Zpos m < 2 ^ 53)%Z /\ (lo <= e <= hi)%Z.

(** The bound used for the accumulated rounding errors of one
    percentage. *)
Definition eps : R := (/ 1000000000)%R.

(** ** Tab 4: the analytics ([main], lines 258-293) *)

(** [Series.value_counts()]: the distinct present values with their numbers
    of occurrences, largest count first. *)
Definition value_counts `{SortValues} (col : list (cell string))
    : list (string * nat) :=
  let values := dropna col in
  sort_values_desc (fun vc => Z.of_nat (snd vc))
    (map (fun v => (v, count_occ string_dec values v))
         (drop_duplicates string_dec values)).

Definition state_counts `{SortValues} (filtered_df : DataFrame)
    : list (string * nat) :=
  value_counts (map state filtered_df).

Definition pop_counts `{SortValues} (filtered_df : DataFrame)
    : list (string * nat) :=
  value_counts (map population_range filtered_df).

Definition respondent_key (r : Row) : cell (string * string) :=
  cell_pair (name r) (city_state r).

(** [groupby(["Name", "City, State"]).size().reset_index(...)
    .sort_values("Response Count", ascending=False).head(15)]. *)
Definition respondent_counts `{SortValues} (filtered_df : DataFrame)
    : list ((string * string) * nat) :=
  sort_values_desc (fun kc => Z.of_nat (snd kc))
    (map (fun k => (k, List.length (get_group respondent_key k filtered_df)))
         (group_keys respondent_key filtered_df)).

Definition top_respondents `{SortValues} (filtered_df : DataFrame)
    : list ((string * string) * nat) :=
  head 15 (respondent_counts filtered_df).

(** ** First occurrences *)

Section DropDuplicates.

Context {A : Type} (dec : forall a b : A, {a = b} + {a <> b}).

Lemma drop_duplicates_from_In (seen l : list A) (x : A) :
  In x (drop_duplicates_from dec seen l) <-> In x l /\ ~ In x seen.
Proof.
  revert seen. induction l as [| y rest IH]; intros seen; simpl.
  - tauto.
  - destruct (in_dec dec y seen) as [Hy | Hy].
    + rewrite IH. split.
      * intros [Hin Hns]. tauto.
      * intros [[E | Hin] Hns]; [subst; contradiction | tauto].
    + simpl. rewrite IH. simpl. split.
      * intros [E | [Hin Hns]]; [subst; tauto | tauto].
      * intros [[E | Hin] Hns]; [now left |].
        destruct (dec y x) as [E | E]; [now left | right; tauto].
Qed.

Lemma drop_duplicates_from_NoDup (seen l : list A) :
  NoDup (drop_duplicates_from dec seen l).
Proof.
  revert seen. induction l as [| y rest IH]; intros seen; simpl.
  - constructor.
  - destruct (in_dec dec y seen) as [Hy | Hy]; [apply IH |].
    constructor; [| apply IH].
    rewrite drop_duplicates_from_In. simpl. tauto.
Qed.

Lemma drop_duplicates_In (l : list A) (x : A) :
  In x (drop_duplicates dec l) <-> In x l.
Proof.
  unfold drop_duplicates. rewrite drop_duplicates_from_In. simpl. tauto.
Qed.

Lemma drop_duplicates_NoDup (l : list A) : NoDup (drop_duplicates dec l).
Proof.
  apply drop_duplicates_from_NoDup.
Qed.

End DropDuplicates.

Lemma filter_partition_perm (A : Type) (p : A -> bool) (l : list A) :
  Permutation (filter p l ++ filter (fun x => negb (p x)) l) l.
Proof.
  induction l as [| x l IH]; simpl.
  - constructor.
  - destruct (p x); simpl.
    + now apply perm_skip.
    + eapply perm_trans; [apply Permutation_sym, Permutation_middle |].
      now apply perm_skip.
Qed.

Lemma sort_values_asc_na_last_perm (S : SortValues) (A : Type)
    (by_col : A -> cell Z) (l : list A) :
  Permutation (sort_values_asc_na_last by_col l) l.
Proof.
  unfold sort_values_asc_na_last.
  eapply perm_trans; [| apply (filter_partition_perm (fun x => present (by_col x)))].
  apply Permutation_app_tail, sort_values_perm.
Qed.

(** ** The session select box *)

Definition session_pairs (df : DataFrame) : list (cell Z * cell string) :=
  drop_duplicates pair_cell_eq_dec
    (map (fun r => (webinar_date r, month_year r)) df).

Lemma sessions_perm (S : SortValues) (df : DataFrame) :
  Permutation (sessions df) (map snd (session_pairs df)).
Proof.
  unfold sessions, session_pairs.
  apply Permutation_map, sort_values_asc_na_last_perm.
Qed.

Lemma session_pairs_In (df : DataFrame) (p : cell Z * cell string) :
  In p (session_pairs df)
  <-> exists r, In r df /\ webinar_date r = fst p /\ month_year r = snd p.
Proof.
  unfold session_pairs. rewrite drop_duplicates_In, in_map_iff. split.
  - intros (r & E & Hr). exists r. subst p. simpl. tauto.
  - intros (r & Hr & Hd & Hm). exists r. split; [| exact Hr].
    destruct p. simpl in *. congruence.
Qed.


Lemma filter_step_keeps_matching_row (sentinel : string)
    (col : Row -> cell string) (s : string) (frame : DataFrame) :
  In (Val s) (map col frame) -> filter_step sentinel col (Val s) frame <> [].
Proof.
  intros Hin. apply in_map_iff in Hin. destruct Hin as (r & Hc & Hr).
  assert (Hkept : In r (filter_step sentinel col (Val s) frame)).
  { rewrite filter_step_as_filter, filter_In. split; [exact Hr |].
    apply step_ok_spec. intros _. now exists s. }
  intros E. rewrite E in Hkept. contradiction.
Qed.

Lemma sessions_In (S : SortValues) (df : DataFrame) (c : cell string) :
  In c (sessions df) <-> In c (map month_year df).
Proof.
  split.
  - intros Hin. apply (Permutation_in _ (sessions_perm S df)) in Hin.
    apply in_map_iff in Hin. destruct Hin as (p & Hc & Hp).
    apply session_pairs_In in Hp. destruct Hp as (r & Hr & _ & Hm).
    apply in_map_iff. exists r. split; congruence.
  - intros Hin. apply in_map_iff in Hin. destruct Hin as (r & Hc & Hr).
    apply (Permutation_in _ (Permutation_sym (sessions_perm S df))).
    apply in_map_iff. exists (webinar_date r, month_year r).
    split; [exact Hc |]. apply session_pairs_In. now exists r.
Qed.


(** X2.  When every label of the table belongs to one webinar date, no label
    is listed twice after the sentinel, and the whole option list is free of
    duplicates exactly when no row is labelled "All Sessions". *)
Theorem sessions_distinct_labels (S : SortValues) (df : DataFrame) :
  (forall r r', In r df -> In r' df ->
     month_year r = month_year r' -> webinar_date r = webinar_date r') ->
  NoDup (sessions df)
  /\ (NoDup (session_options df)
      <-> ~ In (Val ALL_SESSIONS) (map month_year df)).
Proof.
  intros Hone.
  assert (Hnd : NoDup (sessions df)).
  { eapply Permutation_NoDup; [apply Permutation_sym, sessions_perm |].
    apply NoDup_map_NoDup_ForallPairs; [| apply drop_duplicates_NoDup].
    intros p q Hp Hq Hsnd.
    apply session_pairs_In in Hp. destruct Hp as (r & Hr & Hd & Hm).
    apply session_pairs_In in Hq. destruct Hq as (r' & Hr' & Hd' & Hm').
    assert (Hdate : webinar_date r = webinar_date r')
      by (apply Hone; congruence).
    destruct p, q. simpl in *. congruence. }
  split; [exact Hnd |].
  unfold session_options. rewrite NoDup_cons_iff, sessions_In. tauto.
Qed.

(** The two labels of [same_day_table] are offered once each, and the
    sentinel is not among them. *)
Lemma sessions_distinct_labels_witness :
  NoDup (@sessions stable_sort_values same_day_table)
  /\ NoDup (@session_options stable_sort_values same_day_table).
Proof.
  assert (Hone : forall r r', In r same_day_table -> In r' same_day_table ->
            month_year r = month_year r' -> webinar_date r = webinar_date r').
  { intros r r' Hr Hr' Hlabel. simpl in Hr, Hr'.
    destruct Hr as [E | [E | []]], Hr' as [E' | [E' | []]]; subst;
      solve [reflexivity | discriminate Hlabel]. }
  destruct (@sessions_distinct_labels stable_sort_values same_day_table Hone)
    as [Hnd Hopt].
  split; [exact Hnd |].
  apply (proj2 Hopt).
  simpl. intros [E | [E | []]]; discriminate.
Defined.

(** ** The question, respondent and city boxes *)

Lemma forallb_present (A : Type) (l : list (cell A)) :
  forallb present l = true <-> ~ In NaN l.
Proof.
  rewrite forallb_forall. split.
  - intros Hall Hin. specialize (Hall _ Hin). discriminate.
  - intros Hno c Hc. destruct c; [contradiction | reflexivity].
Qed.

Lemma unique_In (col : list (cell string)) (c : cell string) :
  In c (unique col) <-> In c col.
Proof.
  apply drop_duplicates_In.
Qed.

Lemma dropna_NoDup (A : Type) (l : list (cell A)) :
  NoDup l -> NoDup (dropna l).
Proof.
  induction 1 as [| c l Hnotin _ IH]; simpl.
  - constructor.
  - destruct c as [| a]; [exact IH |].
    constructor; [| exact IH]. now rewrite In_dropna.
Qed.

Lemma py_sorted_In (values sorted : list (cell string)) (c : cell string) :
  py_sorted values = inr sorted -> (In c sorted <-> In c values).
Proof.
  unfold py_sorted.
  destruct (forallb present values) eqn:Hp.
  - intros E. inversion E; subst. clear E.
    apply forallb_present in Hp. rewrite in_map_iff. split.
    + intros (s & Hc & Hs). subst c.
      apply (Permutation_in _ (sort_keys_perm _)) in Hs.
      now apply In_dropna.
    + intros Hin. destruct c as [| s]; [contradiction |].
      exists s. split; [reflexivity |].
      apply (Permutation_in _ (Permutation_sym (sort_keys_perm _))).
      now apply In_dropna.
  - destruct (forallb (fun c => negb (present c)) values).
    + intros E. inversion E. tauto.
    + discriminate.
Qed.

(** X4.  When no value of the column is missing, building the box raises
    nothing, and the box offers its sentinel followed by the distinct values
    of the column, each exactly once. *)
Theorem column_options_distinct (sentinel : string) (col : Row -> cell string)
    (frame : DataFrame) :
  ~ In NaN (map col frame) ->
  exists values : list string,
    column_options sentinel col frame = inr (Val sentinel :: map Val values)
    /\ NoDup values
    /\ (forall s, In s values <-> In (Val s) (map col frame)).
Proof.
  intros Hno.
  exists (sort_keys (dropna (unique (map col frame)))).
  assert (Hp : forallb present (unique (map col frame)) = true).
  { apply forallb_present. now rewrite unique_In. }
  split; [| split].
  - unfold column_options, py_sorted. now rewrite Hp.
  - eapply Permutation_NoDup; [apply Permutation_sym, sort_keys_perm |].
    apply dropna_NoDup, drop_duplicates_NoDup.
  - intros s. rewrite <- unique_In, <- In_dropna. split; intros Hin.
    + now apply (Permutation_in _ (sort_keys_perm _)).
    + now apply (Permutation_in _ (Permutation_sym (sort_keys_perm _))).
Qed.

(** The respondent box of [january_table]: four names after the sentinel,
    none repeated, although the table has several rows per session. *)
Lemma column_options_distinct_witness :
  ~ In NaN (map name january_table)
  /\ exists values : list string,
       column_options ALL_RESPONDENTS name january_table
       = inr (Val ALL_RESPONDENTS :: map Val values)
       /\ NoDup values
       /\ (forall s, In s values <-> In (Val s) (map name january_table)).
Proof.
  assert (Hno : ~ In NaN (map name january_table)).
  { simpl. intros [E | [E | [E | [E | []]]]]; discriminate. }
  split; [exact Hno |].
  exact (@column_options_distinct ALL_RESPONDENTS name january_table Hno).
Defined.

(** X5.  Every string on offer in a box after the sentinel selects at least
    one row of the frame the box was built from, while the missing value,
    when it is on offer, selects none. *)
Theorem offered_option_selects_rows (sentinel : string)
    (col : Row -> cell string) (frame : DataFrame)
    (options : list (cell string)) :
  column_options sentinel col frame = inr options ->
  (forall s, In (Val s) (tl options) ->
     filter_step sentinel col (Val s) frame <> [])
  /\ filter_step sentinel col NaN frame = [].
Proof.
  intros Hoptions. split.
  - intros s Hin. apply filter_step_keeps_matching_row.
    unfold column_options in Hoptions.
    destruct (py_sorted (unique (map col frame))) as [e | values] eqn:Hs;
      [discriminate |].
    inversion Hoptions; subst options. simpl in Hin.
    apply (proj1 (@py_sorted_In _ _ (Val s) Hs)) in Hin. now apply unique_In.
  - unfold filter_step. simpl. apply filter_none.
    intros r _. destruct (col r); reflexivity.
Qed.

(** The question box of [january_table]: its one question selects rows. *)
Lemma offered_option_selects_rows_witness :
  column_options ALL_QUESTIONS question january_table
  = inr [Val ALL_QUESTIONS; Val "Top priority?"%string]
  /\ (forall s, In (Val s) [Val "Top priority?"%string] ->
        filter_step ALL_QUESTIONS question (Val s) january_table <> [])
  /\ filter_step ALL_QUESTIONS question NaN january_table = [].
Proof.
  split; [reflexivity |].
  exact (@offered_option_selects_rows ALL_QUESTIONS question january_table
           [Val ALL_QUESTIONS; Val "Top priority?"%string] eq_refl).
Defined.

(** ** The question totals, continued *)

Lemma filter_true (A : Type) (l : list A) : filter (fun _ => true) l = l.
Proof.
  now apply filter_all.
Qed.

(** X6.  The question totals come out in descending order of webinar date,
    and their counts add up to the number of rows in use whose five key
    columns are all present: every such row is counted once, and no other
    row is counted. *)
Theorem question_totals_order_and_sum (S : SortValues) (df : DataFrame)
    (session_filter : option (cell string)) :
  descending t_webinar_date (get_question_totals df session_filter)
  /\ list_sum (map t_count (get_question_totals df session_filter))
     = List.length (filter (fun r => present (answer_key r))
                           (restrict_session df session_filter)).
Proof.
  split; [apply sort_values_sorted |].
  rewrite (list_sum_perm
             (Permutation_map t_count
                (get_question_totals_perm S df session_filter))).
  unfold answer_groups. rewrite map_map. simpl.
  rewrite (map_ext _ (fun k => List.length
             (filter (fun _ => true)
                (get_group answer_key k (restrict_session df session_filter)))))
    by (intros k; now rewrite filter_true).
  rewrite (@group_sizes_sum AnswerKey _ answer_key (fun _ => true)).
  - f_equal. apply filter_ext. intros r. now rewrite andb_true_r.
  - apply group_keys_NoDup.
  - intros r k Hr Hk. apply group_keys_In. now exists r.
Qed.

(** X7.  For the sentinel and for every label that is true in Python's
    sense, the totals of the second tab are those of the rows the sidebar's
    session filter keeps; the question filter of the sidebar plays no part
    in them. *)
Theorem tab_totals_follow_session_filter (S : SortValues) (df : DataFrame)
    (selected_session : cell string) :
  py_bool selected_session = true ->
  main_question_totals df selected_session
  = get_question_totals
      (filter_step ALL_SESSIONS month_year selected_session df) None.
Proof.
  intros Htrue.
  unfold main_question_totals, session_filter_of, filter_step, py_ne.
  destruct (cell_eq String.eqb selected_session (Val ALL_SESSIONS)); simpl.
  - reflexivity.
  - unfold get_question_totals, restrict_session. now rewrite Htrue.
Qed.

(** With "Jan 2024" selected, the totals of [january_table] are those of its
    January rows. *)
Lemma tab_totals_follow_session_filter_witness :
  py_bool (Val "Jan 2024"%string) = true
  /\ @main_question_totals stable_sort_values january_table
       (Val "Jan 2024"%string)
     = @get_question_totals stable_sort_values
         (filter_step ALL_SESSIONS month_year (Val "Jan 2024"%string)
                      january_table) None.
Proof.
  split; [reflexivity |].
  exact (@tab_totals_follow_session_filter stable_sort_values january_table
           (Val "Jan 2024"%string) eq_refl).
Defined.

(** ** The expanders of the second tab *)

Lemma list_sum_filter (A : Type) (f : A -> nat) (p : A -> bool) (l : list A) :
  list_sum (map f (filter p l))
  = list_sum (map (fun x => if p x then f x else 0) l).
Proof.
  induction l as [| x l IH]; simpl.
  - reflexivity.
  - destruct (p x); simpl; now rewrite IH.
Qed.

Lemma list_sum_In_le (x : nat) (l : list nat) : In x l -> x <= list_sum l.
Proof.
  induction l as [| y l IH]; simpl; intros Hin; [contradiction |].
  destruct Hin as [E | Hin]; [lia | specialize (IH Hin); lia].
Qed.

Lemma session_mask_true (t : TotalsRow) (k : SessionKey) :
  (t_webinar_date t =? fst k)%Z
  && String.eqb (t_month_year t) (fst (snd k))
  && String.eqb (t_webinar_title t) (snd (snd k)) = true
  <-> totals_session t = k.
Proof.
  destruct k as [d [m ti]]. unfold totals_session. simpl.
  rewrite !andb_true_iff, Z.eqb_eq, !String.eqb_eq. split.
  - intros [[Hd Hm] Ht]. congruence.
  - intros E. inversion E. tauto.
Qed.

Lemma session_data_In (totals : list TotalsRow) (k : SessionKey)
    (t : TotalsRow) :
  In t (session_data totals k) <-> In t totals /\ totals_session t = k.
Proof.
  unfold session_data. now rewrite filter_In, session_mask_true.
Qed.

Lemma question_data_In (data : list TotalsRow) (q : string) (t : TotalsRow) :
  In t (question_data data q) <-> In t data /\ t_question t = q.
Proof.
  unfold question_data. now rewrite filter_In, String.eqb_eq.
Qed.

Lemma expanders_In (totals : list TotalsRow) (k : SessionKey) (q : string)
    (data : list TotalsRow) :
  In (k, q, data) (expanders totals)
  <-> In k (sessions_in_view totals)
      /\ In q (questions_in_session (session_data totals k))
      /\ data = question_data (session_data totals k) q.
Proof.
  unfold expanders. rewrite in_flat_map. split.
  - intros (k' & Hk & Hin). apply in_map_iff in Hin.
    destruct Hin as (q' & E & Hq). inversion E; subst. tauto.
  - intros (Hk & Hq & Hdata). exists k. split; [exact Hk |].
    apply in_map_iff. exists q. split; [now subst | exact Hq].
Qed.

(** The rows of a group of the totals share its session and its question. *)
Lemma answer_group_session_question (rows : DataFrame) (K : AnswerKey)
    (r : Row) :
  In r (get_group answer_key K rows) ->
  session_key r = Val (fst K) /\ question r = Val (fst (snd K)).
Proof.
  intros Hr. apply get_group_In in Hr. destruct Hr as [_ Hkey].
  destruct K as [sk [q a]]. unfold answer_key in Hkey.
  apply cell_pair_Val in Hkey. destruct Hkey as [Hs Hqa].
  apply cell_pair_Val in Hqa. simpl. tauto.
Qed.

(** The test of an expander on the rows of the response table. *)
Definition in_expander (k : SessionKey) (q : string) (r : Row) : bool :=
  cell_eq key_eqb (session_key r) (Val k)
  && cell_eq String.eqb (question r) (Val q).

Lemma expander_group_size (rows : DataFrame) (k : SessionKey) (q : string)
    (K : AnswerKey) :
  (if (fst (fst K) =? fst k)%Z
      && String.eqb (fst (snd (fst K))) (fst (snd k))
      && String.eqb (snd (snd (fst K))) (snd (snd k))
      && String.eqb (fst (snd K)) q
   then List.length (get_group answer_key K rows) else 0)
  = List.length (filter (in_expander k q) (get_group answer_key K rows)).
Proof.
  destruct K as [[d [m ti]] [q' a]], k as [d0 [m0 ti0]]. simpl.
  destruct ((d =? d0)%Z && String.eqb m m0 && String.eqb ti ti0
            && String.eqb q' q) eqn:E.
  - f_equal. symmetry. apply filter_all. intros r Hr.
    apply answer_group_session_question in Hr. simpl in Hr.
    destruct Hr as [Hs Hq]. unfold in_expander. rewrite Hs, Hq. simpl.
    rewrite !andb_true_iff, Z.eqb_eq, !String.eqb_eq in E.
    destruct E as [[[Hd Hm] Ht] Hq']. subst.
    rewrite String.eqb_refl, andb_true_r. now apply key_eqb_true.
  - rewrite filter_none; [reflexivity |]. intros r Hr.
    apply answer_group_session_question in Hr. simpl in Hr.
    destruct Hr as [Hs Hq]. unfold in_expander. rewrite Hs, Hq. simpl.
    match goal with
    | |- ?a && ?b = false =>
        destruct a eqn:Ek; [| reflexivity]; destruct b eqn:Eq; [| reflexivity]
    end.
    apply key_eqb_true in Ek. inversion Ek; subst.
    rewrite Z.eqb_refl, !String.eqb_refl in E. discriminate.
Qed.

Lemma in_expander_counted (k : SessionKey) (q : string) (r : Row) :
  present (answer_key r) && in_expander k q r
  = in_expander k q r && present (answer r).
Proof.
  unfold in_expander, answer_key.
  destruct (session_key r), (question r), (answer r); simpl;
    rewrite ?andb_false_r, ?andb_true_r; reflexivity.
Qed.

(** X8.  In every expander of the second tab the divisor of the
    percentages is at least one, and it is the number of rows in use that
    belong to the expander's session, carry its question and have an
    answer. *)
Theorem expander_total_counts_rows (S : SortValues) (df : DataFrame)
    (session_filter : option (cell string)) (k : SessionKey) (q : string)
    (data : list TotalsRow) :
  In (k, q, data) (expanders (get_question_totals df session_filter)) ->
  1 <= total data
  /\ total data
     = List.length
         (filter (fun r => in_expander k q r && present (answer r))
                 (restrict_session df session_filter)).
Proof.
  intros Hexp. apply expanders_In in Hexp. destruct Hexp as (_ & Hq & Hdata).
  set (totals := get_question_totals df session_filter) in *.
  set (rows := restrict_session df session_filter).
  destruct (answer_groups_rows S df session_filter) as (_ & _ & Hrow).
  fold totals in Hrow. split.
  - apply drop_duplicates_In, in_map_iff in Hq.
    destruct Hq as (t & Ht & Hin).
    assert (Hdata_t : In t data).
    { subst data. now apply question_data_In. }
    apply session_data_In in Hin. destruct Hin as [Hin _].
    destruct (Hrow t Hin) as (_ & _ & Hone).
    unfold total. etransitivity; [exact Hone |].
    apply list_sum_In_le. now apply in_map.
  - subst data. unfold total, question_data, session_data.
    rewrite filter_twice, list_sum_filter.
    pose proof (get_question_totals_perm S df session_filter) as Hperm.
    fold totals in Hperm. fold rows in Hperm.
    rewrite (list_sum_perm (Permutation_map _ Hperm)).
    unfold answer_groups. rewrite map_map. simpl.
    rewrite (map_ext _ (fun K => List.length
               (filter (in_expander k q) (get_group answer_key K rows))))
      by (intros K; apply expander_group_size).
    rewrite (@group_sizes_sum AnswerKey _ answer_key (in_expander k q)).
    + f_equal. apply filter_ext. intros r. apply in_expander_counted.
    + apply group_keys_NoDup.
    + intros r K Hr HK. apply group_keys_In. now exists r.
Qed.

(** The one expander of [january_table]: three answers A and one answer B
    give the divisor four. *)
Lemma expander_total_counts_rows_witness :
  In ((20240115%Z, ("Jan 2024", "Housing")), "Top priority?",
      [mkTotalsRow 20240115 "Jan 2024" "Housing" "Top priority?" "A" 3;
       mkTotalsRow 20240115 "Jan 2024" "Housing" "Top priority?" "B" 1])%string
     (expanders (@get_question_totals stable_sort_values january_table None))
  /\ 1 <= total
            [mkTotalsRow 20240115 "Jan 2024" "Housing" "Top priority?" "A" 3;
             mkTotalsRow 20240115 "Jan 2024" "Housing" "Top priority?" "B" 1]
  /\ total
       [mkTotalsRow 20240115 "Jan 2024" "Housing" "Top priority?" "A" 3;
        mkTotalsRow 20240115 "Jan 2024" "Housing" "Top priority?" "B" 1]
     = 4.
Proof.
  assert (Hin : In ((20240115%Z, ("Jan 2024", "Housing")), "Top priority?",
      [mkTotalsRow 20240115 "Jan 2024" "Housing" "Top priority?" "A" 3;
       mkTotalsRow 20240115 "Jan 2024" "Housing" "Top priority?" "B" 1])%string
     (expanders (@get_question_totals stable_sort_values january_table None)))
    by (left; reflexivity).
  split; [exact Hin |].
  split; [| reflexivity].
  exact (proj1 (@expander_total_counts_rows stable_sort_values january_table
                  None _ _ _ Hin)).
Defined.

(** *** The expanders split the totals *)

Section Buckets.

Context {A K : Type} (f : A -> K) (same : A -> K -> bool).
Hypothesis same_spec : forall x k, same x k = true <-> f x = k.




End Buckets.

Lemma Permutation_flat_map_pointwise (A B : Type) (g h : A -> list B)
    (l : list A) :
  (forall a, Permutation (g a) (h a)) ->
  Permutation (flat_map g l) (flat_map h l).
Proof.
  intros Hgh. induction l as [| a l IH]; simpl.
  - constructor.
  - now apply Permutation_app.
Qed.



(** *** What the tab shows

    [expanders] lists the iterations of the two loops.  Two statements
    inside the loops can raise and end the run: the header of a session,
    [pd.to_datetime(str(session_date), format="%Y%m%d")] (line 146), and the
    chart of an expander, whose element key
    [f"chart_{session_date}_{question}"] (line 185) must not have been used
    before in the run. *)

(** The dtype of the date column: [read_csv] makes it [int64] when every
    cell is present and [float64] as soon as one is missing, and [str] of a
    date differs between the two. *)
Inductive DateDtype : Type :=
| Int64
| Float64.

Definition date_dtype (df : DataFrame) : DateDtype :=
  if forallb present (map webinar_date df) then Int64 else Float64.




Section RenderTab.

(** The header text pandas makes of a date of the given dtype, [None] when
    [pd.to_datetime] raises [ValueError]. *)
Variable format_date : DateDtype -> Z -> option string.
Variable dtype : DateDtype.










End RenderTab.



(** ** The analytics tab *)

Lemma descending_head_skipn (A : Type) (by_col : A -> Z) (n : nat)
    (l : list A) :
  descending by_col l ->
  forall shown omitted, In shown (head n l) -> In omitted (skipn n l) ->
  (by_col omitted <= by_col shown)%Z.
Proof.
  unfold head. revert l. induction n as [| n IH]; intros l Hsorted shown omitted.
  - simpl. contradiction.
  - destruct l as [| x l]; simpl; [contradiction |].
    inversion Hsorted as [| ? ? Hrest Hall]; subst.
    intros [E | Hin] Hom.
    + subst shown. rewrite Forall_forall in Hall. apply Hall.
      rewrite <- (firstn_skipn n l). apply in_or_app. now right.
    + now apply (IH l Hrest).
Qed.

Lemma head_all (A : Type) (n : nat) (l : list A) :
  List.length l <= n -> head n l = l.
Proof.
  apply firstn_all2.
Qed.

Lemma count_occ_sum (values : list string) (ks : list string) :
  NoDup ks -> (forall v, In v values -> In v ks) ->
  list_sum (map (count_occ string_dec values) ks) = List.length values.
Proof.
  intros Hnd. induction values as [| x values IH]; intros Hcover.
  - simpl. now apply list_sum_zero.
  - rewrite (map_ext _ (fun k => (if key_eqb x k then 1 else 0)
                                 + count_occ string_dec values k)).
    + rewrite list_sum_pointwise, IH by (intros v Hv; apply Hcover; now right).
      rewrite (@one_group_per_key string _ x ks Hnd)
        by (apply Hcover; now left).
      reflexivity.
    + intros k. simpl. unfold key_eqb. simpl.
      destruct (string_dec x k); reflexivity.
Qed.

Lemma value_counts_perm (S : SortValues) (col : list (cell string)) :
  Permutation (value_counts col)
    (map (fun v => (v, count_occ string_dec (dropna col) v))
         (drop_duplicates string_dec (dropna col))).
Proof.
  apply sort_values_perm.
Qed.

(** X10.  [value_counts] lists every value present in the column once,
    with the number of cells that hold it, largest count first; the counts
    add up to the number of cells that are not missing. *)
Theorem value_counts_counts_present_cells (S : SortValues)
    (col : list (cell string)) :
  NoDup (map fst (value_counts col))
  /\ (forall v n, In (v, n) (value_counts col)
                  <-> In (Val v) col
                      /\ n = count_occ string_dec (dropna col) v)
  /\ (forall v n, In (v, n) (value_counts col) -> 1 <= n)
  /\ descending (fun vc => Z.of_nat (snd vc)) (value_counts col)
  /\ list_sum (map snd (value_counts col)) = count col.
Proof.
  pose proof (value_counts_perm S col) as Hperm.
  assert (Hin : forall v n, In (v, n) (value_counts col)
                  <-> In (Val v) col
                      /\ n = count_occ string_dec (dropna col) v).
  { intros v n. rewrite <- In_dropna. split.
    - intros H. apply (Permutation_in _ Hperm), in_map_iff in H.
      destruct H as (v' & E & Hv'). inversion E; subst.
      apply drop_duplicates_In in Hv'. tauto.
    - intros [Hv Hn]. apply (Permutation_in _ (Permutation_sym Hperm)).
      apply in_map_iff. exists v. split; [now subst |].
      now apply drop_duplicates_In. }
  split; [| split; [exact Hin | split; [| split]]].
  - eapply Permutation_NoDup.
    + apply Permutation_sym, Permutation_map, Hperm.
    + rewrite map_map. simpl. rewrite map_id. apply drop_duplicates_NoDup.
  - intros v n H. apply Hin in H. destruct H as [Hv Hn]. subst n.
    apply In_dropna in Hv.
    apply (proj1 (count_occ_In string_dec _ _)) in Hv. lia.
  - apply sort_values_sorted.
  - rewrite (list_sum_perm (Permutation_map snd Hperm)), map_map. simpl.
    unfold count. apply count_occ_sum.
    + apply drop_duplicates_NoDup.
    + intros v Hv. now apply drop_duplicates_In.
Qed.

Lemma respondent_counts_perm (S : SortValues) (df : DataFrame) :
  Permutation (respondent_counts df)
    (map (fun k => (k, List.length (get_group respondent_key k df)))
         (group_keys respondent_key df)).
Proof.
  apply sort_values_perm.
Qed.

(** X11.  The respondent counts list every (name, city) pair present in
    the table once, with the number of rows that carry it, largest count
    first; the counts add up to the number of rows in which name and city
    are both present. *)
Theorem respondent_counts_count_rows (S : SortValues) (df : DataFrame) :
  NoDup (map fst (respondent_counts df))
  /\ (forall k n, In (k, n) (respondent_counts df)
                  <-> (exists r, In r df /\ respondent_key r = Val k)
                      /\ n = occurrences respondent_key k df)
  /\ (forall k n, In (k, n) (respondent_counts df) -> 1 <= n)
  /\ descending (fun kc => Z.of_nat (snd kc)) (respondent_counts df)
  /\ list_sum (map snd (respondent_counts df))
     = List.length (filter (fun r => present (respondent_key r)) df).
Proof.
  pose proof (respondent_counts_perm S df) as Hperm.
  split; [| split; [| split; [| split]]].
  - eapply Permutation_NoDup.
    + apply Permutation_sym, Permutation_map, Hperm.
    + rewrite map_map. simpl. rewrite map_id. apply group_keys_NoDup.
  - intros k n. rewrite <- group_keys_In, <- get_group_occurrences. split.
    + intros H. apply (Permutation_in _ Hperm), in_map_iff in H.
      destruct H as (k' & E & Hk'). inversion E; subst. tauto.
    + intros [Hk Hn]. apply (Permutation_in _ (Permutation_sym Hperm)).
      apply in_map_iff. exists k. split; [now subst | exact Hk].
  - intros k n H. apply (Permutation_in _ Hperm), in_map_iff in H.
    destruct H as (k' & E & Hk'). inversion E; subst.
    now apply get_group_nonempty.
  - apply sort_values_sorted.
  - rewrite (list_sum_perm (Permutation_map snd Hperm)), map_map. simpl.
    rewrite (map_ext _ (fun k => List.length
               (filter (fun _ => true) (get_group respondent_key k df))))
      by (intros k; now rewrite filter_true).
    rewrite (@group_sizes_sum (string * string) _ respondent_key
               (fun _ => true)).
    + f_equal. apply filter_ext. intros r. now rewrite andb_true_r.
    + apply group_keys_NoDup.
    + intros r k Hr Hk. apply group_keys_In. now exists r.
Qed.

(** X12.  The bar chart shows at most twenty states and the respondent
    table at most fifteen respondents; nothing left out has a larger count
    than anything shown, and nothing is left out when there are no more
    entries than that. *)
Theorem top_lists_keep_the_largest (S : SortValues) (filtered_df : DataFrame) :
  (List.length (head 20 (state_counts filtered_df)) <= 20
   /\ (forall shown omitted,
         In shown (head 20 (state_counts filtered_df)) ->
         In omitted (skipn 20 (state_counts filtered_df)) ->
         snd omitted <= snd shown)
   /\ (List.length (state_counts filtered_df) <= 20 ->
       head 20 (state_counts filtered_df) = state_counts filtered_df))
  /\ (List.length (top_respondents filtered_df) <= 15
      /\ (forall shown omitted,
            In shown (top_respondents filtered_df) ->
            In omitted (skipn 15 (respondent_counts filtered_df)) ->
            snd omitted <= snd shown)
      /\ (List.length (respondent_counts filtered_df) <= 15 ->
          top_respondents filtered_df = respondent_counts filtered_df)).
Proof.
  split; (split; [apply firstn_le_length | split; [| apply head_all]]).
  - intros shown omitted Hs Ho. apply Nat2Z.inj_le.
    apply (@descending_head_skipn _ (fun vc : string * nat => Z.of_nat (snd vc))
             20 (state_counts filtered_df)); try assumption.
    apply sort_values_sorted.
  - intros shown omitted Hs Ho. apply Nat2Z.inj_le.
    apply (@descending_head_skipn _
             (fun kc : string * string * nat => Z.of_nat (snd kc))
             15 (respondent_counts filtered_df)); try assumption.
    apply sort_values_sorted.
Qed.

(** ** The metrics of the first tab *)

Lemma nunique_le_length (col : list (cell string)) :
  nunique col <= List.length col.
Proof.
  unfold nunique.
  assert (Hdrop : List.length (dropna col) <= List.length col).
  { induction col as [| c col IH]; simpl; [lia |].
    destruct c; simpl; lia. }
  etransitivity; [| exact Hdrop].
  apply NoDup_incl_length; [apply NoDup_nodup |].
  intros v Hv. now apply nodup_In in Hv.
Qed.

Lemma nunique_incl (col col' : list (cell string)) :
  (forall v, In (Val v) col -> In (Val v) col') ->
  nunique col <= nunique col'.
Proof.
  intros Hincl. unfold nunique.
  apply NoDup_incl_length; [apply NoDup_nodup |].
  intros v Hv. apply nodup_In, In_dropna in Hv.
  apply nodup_In, In_dropna. now apply Hincl.
Qed.

(** X13.  No session of the summary has more unique respondents than the
    "Total Respondents" metric, and that metric is at most the "Total
    Responses" metric. *)
Theorem respondent_metrics_bound (S : SortValues) (df : DataFrame) :
  (forall s, In s (get_session_summary df) ->
     unique_respondents s <= total_respondents df)
  /\ total_respondents df <= total_responses_metric df.
Proof.
  split.
  - intros s Hs. apply get_session_summary_In in Hs.
    destruct Hs as (k & _ & Hs). subst s. simpl.
    apply nunique_incl. intros v Hv.
    apply in_map_iff in Hv. destruct Hv as (r & Hname & Hr).
    apply filter_In in Hr. apply in_map_iff. exists r. tauto.
  - unfold total_respondents, total_responses_metric.
    etransitivity; [apply nunique_le_length |]. now rewrite length_map.
Qed.

(** X14.  On a table without missing values in the three session columns,
    in which date and label determine the title, the "Total Sessions" metric
    is the number of rows of the session summary. *)
Theorem total_sessions_is_summary_length (S : SortValues) (df : DataFrame) :
  (forall r, In r df -> present (session_key r) = true) ->
  (forall r r', In r df -> In r' df ->
     webinar_date r = webinar_date r' -> month_year r = month_year r' ->
     webinar_title r = webinar_title r') ->
  total_sessions df = List.length (get_session_summary df).
Proof.
  intros Hpresent Htitle.
  unfold total_sessions.
  rewrite (Permutation_length (sessions_perm S df)), length_map.
  rewrite (Permutation_length (get_session_summary_perm S df)).
  unfold session_groups. rewrite length_map.
  set (pair_of := fun k : SessionKey => (Val (fst k), Val (fst (snd k)))).
  assert (Hkey : forall k, In k (group_keys session_key df) ->
            exists r, In r df /\ webinar_date r = Val (fst k)
                      /\ month_year r = Val (fst (snd k))
                      /\ webinar_title r = Val (snd (snd k))).
  { intros [d [m t]] Hk. apply group_keys_In in Hk.
    destruct Hk as (r & Hr & Hk). exists r. split; [exact Hr |].
    unfold session_key in Hk. apply cell_pair_Val in Hk.
    destruct Hk as [Hd Hmt]. apply cell_pair_Val in Hmt. simpl. tauto. }
  assert (Hnd : NoDup (map pair_of (group_keys session_key df))).
  { apply NoDup_map_NoDup_ForallPairs; [| apply group_keys_NoDup].
    intros k k' Hk Hk' E.
    destruct (Hkey k Hk) as (r & Hr & Hd & Hm & Ht).
    destruct (Hkey k' Hk') as (r' & Hr' & Hd' & Hm' & Ht').
    unfold pair_of in E. inversion E as [[Ed Em]].
    assert (Etitle : webinar_title r = webinar_title r')
      by (apply Htitle; congruence).
    destruct k as [d [m t]], k' as [d' [m' t']]. simpl in *.
    rewrite Ht, Ht' in Etitle. inversion Etitle. congruence. }
  rewrite <- (length_map pair_of (group_keys session_key df)).
  apply Nat.le_antisymm.
  - apply NoDup_incl_length; [apply drop_duplicates_NoDup |].
    intros p Hp. apply session_pairs_In in Hp.
    destruct Hp as (r & Hr & Hd & Hm).
    specialize (Hpresent r Hr). unfold session_key in Hpresent.
    destruct (webinar_date r) as [| d] eqn:Ed; [discriminate |].
    destruct (month_year r) as [| m] eqn:Em; [discriminate |].
    destruct (webinar_title r) as [| t] eqn:Et; [discriminate |].
    apply in_map_iff. exists (d, (m, t)). split.
    + destruct p. unfold pair_of. simpl in *. congruence.
    + apply group_keys_In. exists r. split; [exact Hr |].
      unfold session_key. now rewrite Ed, Em, Et.
  - apply NoDup_incl_length; [exact Hnd |].
    intros p Hp. apply in_map_iff in Hp. destruct Hp as (k & E & Hk).
    destruct (Hkey k Hk) as (r & Hr & Hd & Hm & _).
    apply session_pairs_In. exists r. subst p. unfold pair_of. simpl. tauto.
Qed.

(** [same_day_table] has two sessions and its summary two rows. *)
Lemma total_sessions_is_summary_length_witness :
  @total_sessions stable_sort_values same_day_table = 2
  /\ @total_sessions stable_sort_values same_day_table
     = List.length (@get_session_summary stable_sort_values same_day_table).
Proof.
  split; [reflexivity |].
  apply (@total_sessions_is_summary_length stable_sort_values same_day_table).
  - intros r Hr. simpl in Hr. destruct Hr as [E | [E | []]]; subst; reflexivity.
  - intros r r' Hr Hr' _ Hlabel. simpl in Hr, Hr'.
    destruct Hr as [E | [E | []]], Hr' as [E' | [E' | []]]; subst;
      solve [reflexivity | discriminate Hlabel].
Defined.

(** ** Filtering twice *)

(** X16.  The filtered table is a sub-table of the input: its rows are
    rows of the table, it is no longer than the table, and filtering it
    again with the same selection changes nothing. *)
Theorem apply_filters_sub_table (df : DataFrame) (sel : Selection) :
  incl (apply_filters df sel) df
  /\ List.length (apply_filters df sel) <= List.length df
  /\ apply_filters (apply_filters df sel) sel = apply_filters df sel.
Proof.
  rewrite !apply_filters_as_filter. split; [| split].
  - apply incl_filter.
  - apply filter_length_le.
  - rewrite filter_twice. apply filter_ext. intros r. apply andb_diag.
Qed.

(** ** The percentages in binary64 *)

Section Binary64.

Local Open Scope Z_scope.

(** *** Digits and shifts *)

Lemma digits2_pos_bounds (p : positive) :
  2 ^ (Zpos (digits2_pos p) - 1) <= Zpos p < 2 ^ Zpos (digits2_pos p).
Proof.
  induction p as [p IH | p IH |]; simpl digits2_pos.
  - rewrite Pos2Z.inj_succ.
    replace (Z.succ (Zpos (digits2_pos p)) - 1) with (Z.succ (Zpos (digits2_pos p) - 1)) by lia.
    rewrite !Z.pow_succ_r by lia. lia.
  - rewrite Pos2Z.inj_succ.
    replace (Z.succ (Zpos (digits2_pos p)) - 1) with (Z.succ (Zpos (digits2_pos p) - 1)) by lia.
    rewrite !Z.pow_succ_r by lia. lia.
  - simpl. lia.
Qed.

Lemma digits2_pos_unique (p : positive) (d : Z) :
  2 ^ (d - 1) <= Zpos p < 2 ^ d -> Zpos (digits2_pos p) = d.
Proof.
  intros [Hlo Hhi].
  destruct (digits2_pos_bounds p) as [Hlo' Hhi'].
  assert (0 < d).
  { destruct (Z_lt_le_dec 0 d) as [|Hd]; [assumption|].
    assert (2 ^ d <= 2 ^ 0) by (apply Z.pow_le_mono_r; lia). simpl in *. lia. }
  assert (d - 1 < Zpos (digits2_pos p)).
  { apply (Z.pow_lt_mono_r_iff 2); lia. }
  assert (Zpos (digits2_pos p) - 1 < d).
  { apply (Z.pow_lt_mono_r_iff 2); lia. }
  lia.
Qed.

Lemma iter_pos_nat {A : Type} (f : A -> A) (p : positive) (x : A) :
  SpecFloat.iter_pos f p x = Nat.iter (Pos.to_nat p) f x.
Proof.
  revert x; induction p as [p IH | p IH |]; intros x; simpl SpecFloat.iter_pos.
  - rewrite !IH, Pos2Nat.inj_xI.
    replace (S (2 * Pos.to_nat p)) with (Pos.to_nat p + (Pos.to_nat p + 1))%nat by lia.
    rewrite !Nat.iter_add. reflexivity.
  - rewrite !IH, Pos2Nat.inj_xO.
    replace (2 * Pos.to_nat p)%nat with (Pos.to_nat p + Pos.to_nat p)%nat by lia.
    rewrite !Nat.iter_add. reflexivity.
  - reflexivity.
Qed.

Lemma shr_m_shr_1 (mrs : shr_record) :
  0 <= shr_m mrs -> shr_m (shr_1 mrs) = shr_m mrs / 2.
Proof.
  destruct mrs as [m r s]; simpl shr_m; intros Hm.
  destruct m as [|[p|p|]|p]; simpl; try lia.
  - reflexivity.
  - apply Z.div_unique with (r := 1); lia.
  - apply Z.div_unique with (r := 0); lia.
  - reflexivity.
Qed.

Lemma shr_m_iter (n : nat) (mrs : shr_record) :
  0 <= shr_m mrs ->
  shr_m (Nat.iter n shr_1 mrs) = shr_m mrs / 2 ^ Z.of_nat n.
Proof.
  intros Hm; induction n as [|n IH].
  - simpl. now rewrite Z.div_1_r.
  - rewrite Nat2Z.inj_succ, Z.pow_succ_r by lia. simpl Nat.iter.
    rewrite shr_m_shr_1.
    + rewrite IH, Z.div_div by lia. f_equal; lia.
    + rewrite IH. apply Z.div_pos; lia.
Qed.

Lemma fexp_normal (e : Z) : -1074 <= e - 53 -> fexp prec emax e = e - 53.
Proof. unfold fexp, SpecFloat.emin, prec, emax. lia. Qed.

Lemma round_nearest_even_cases (m : Z) (l : location) :
  round_nearest_even m l = m \/ round_nearest_even m l = m + 1.
Proof.
  destruct l as [|[]]; simpl; auto.
  destruct (Z.even m); auto.
Qed.

Lemma shr_m_of_loc (m : Z) (l : location) : shr_m (shr_record_of_loc m l) = m.
Proof. destruct l as [|[]]; reflexivity. Qed.

Lemma shr_shift (mrs : shr_record) (e s : Z) :
  0 <= shr_m mrs -> 0 <= s ->
  exists mrs', shr mrs e s = (mrs', e + s) /\ shr_m mrs' = shr_m mrs / 2 ^ s.
Proof.
  intros Hm Hs. destruct s as [|p|p]; try lia.
  - exists mrs. simpl. rewrite Z.add_0_r, Z.div_1_r. auto.
  - eexists; split; [reflexivity|].
    rewrite iter_pos_nat, shr_m_iter, positive_nat_Z by assumption. reflexivity.
Qed.

Lemma shr_fexp_shift (m e : Z) (l : location) (s : Z) :
  0 <= m -> Zdigits2 m = 53 + s -> 0 <= s -> -1074 <= e + s ->
  exists mrs, shr_fexp prec emax m e l = (mrs, e + s) /\ shr_m mrs = m / 2 ^ s.
Proof.
  intros Hm Hd Hs He. unfold shr_fexp. rewrite Hd, fexp_normal by lia.
  replace (53 + s + e - 53 - e) with s by lia.
  destruct (@shr_shift (shr_record_of_loc m l) e s) as (mrs & H1 & H2);
    rewrite ?shr_m_of_loc; try assumption.
  exists mrs; split; [assumption|]. now rewrite H2, shr_m_of_loc.
Qed.

Lemma digits_bounds (m s : Z) :
  0 < m -> Zdigits2 m = 53 + s -> 0 <= s ->
  2 ^ 52 <= m / 2 ^ s < 2 ^ 53.
Proof.
  intros Hm Hd Hs. destruct m as [|p|p]; try lia.
  change (Zdigits2 (Zpos p)) with (Zpos (digits2_pos p)) in Hd.
  pose proof (digits2_pos_bounds p) as Hb. rewrite Hd in Hb.
  replace (53 + s - 1) with (s + 52) in Hb by lia.
  replace (53 + s) with (s + 53) in Hb by lia.
  rewrite !Z.pow_add_r in Hb by lia.
  assert (0 < 2 ^ s) by (apply Z.pow_pos_nonneg; lia).
  split.
  - apply Z.div_le_lower_bound; lia.
  - apply Z.div_lt_upper_bound; lia.
Qed.

(** One rounding.  A mantissa of [53 + s] bits at an exponent that keeps the
    result normal is shifted by [s] bits and rounded: the result has a
    mantissa of 53 bits that is the shifted one or the next, renormalised
    when the rounding carries into a 54th bit. *)
Lemma binary_round_aux_normal (sx : bool) (mx ex : Z) (lx : location) (s : Z) :
  0 < mx -> Zdigits2 mx = 53 + s -> 0 <= s -> -1074 <= ex + s <= 970 ->
  exists m' e',
    binary_round_aux prec emax sx mx ex lx = S754_finite sx m' e'
    /\ 2 ^ 52 <= Zpos m' < 2 ^ 53
    /\ ex + s <= e' <= ex + s + 1
    /\ mx / 2 ^ s <= Zpos m' * 2 ^ (e' - (ex + s)) <= mx / 2 ^ s + 1.
Proof.
  intros Hm Hd Hs He.
  destruct (@shr_fexp_shift mx ex lx s) as (mrs & H1 & H2); try lia.
  pose proof (@digits_bounds mx s Hm Hd Hs) as Hb.
  unfold binary_round_aux. rewrite H1.
  set (m2 := round_nearest_even (shr_m mrs) (loc_of_shr_record mrs)).
  assert (Hm2 : m2 = mx / 2 ^ s \/ m2 = mx / 2 ^ s + 1).
  { unfold m2. rewrite <- H2. apply round_nearest_even_cases. }
  assert (Hcase : m2 < 2 ^ 53 \/ m2 = 2 ^ 53) by lia.
  destruct Hcase as [Hlt | Heq].
  - assert (Hd2 : Zdigits2 m2 = 53 + 0).
    { destruct m2 as [|p|p]; try lia.
      change (Zdigits2 (Zpos p)) with (Zpos (digits2_pos p)).
      apply digits2_pos_unique. lia. }
    destruct (@shr_fexp_shift m2 (ex + s) loc_Exact 0) as (mrs2 & H3 & H4); try lia.
    rewrite H3, H4, Z.div_1_r.
    destruct m2 as [|p|p]; try lia.
    replace (ex + s + 0 <=? emax - prec) with true
      by (symmetry; apply Z.leb_le; unfold emax, prec; lia).
    exists p, (ex + s + 0). split; [reflexivity|].
    replace (ex + s + 0 - (ex + s)) with 0 by lia. simpl Z.pow. lia.
  - assert (Hd2 : Zdigits2 m2 = 53 + 1) by now rewrite Heq.
    destruct (@shr_fexp_shift m2 (ex + s) loc_Exact 1) as (mrs2 & H3 & H4); try lia.
    rewrite H3, H4, Heq.
    change (2 ^ 53 / 2 ^ 1) with (Zpos (2 ^ 52)%positive).
    replace (ex + s + 1 <=? emax - prec) with true
      by (symmetry; apply Z.leb_le; unfold emax, prec; lia).
    exists (2 ^ 52)%positive, (ex + s + 1). split; [reflexivity|].
    replace (ex + s + 1 - (ex + s)) with 1 by lia.
    change (Zpos (2 ^ 52)%positive) with (2 ^ 52). 
    change (2 ^ 52 * 2 ^ 1) with (2 ^ 53). lia.
Qed.

(** *** Real values of the roundings *)

Lemma powerRZ_IZR (n : Z) : 0 <= n -> powerRZ 2 n = IZR (2 ^ n).
Proof.
  intros Hn. destruct n as [|p|p]; try lia.
  - reflexivity.
  - simpl powerRZ. rewrite pow_IZR, positive_nat_Z. reflexivity.
Qed.

Lemma powerRZ_pos (n : Z) : (0 < powerRZ 2 n)%R.
Proof. apply powerRZ_lt; lra. Qed.

Lemma powerRZ_plus (n m : Z) : powerRZ 2 (n + m) = (powerRZ 2 n * powerRZ 2 m)%R.
Proof. apply powerRZ_add; lra. Qed.

(** The same in real numbers: the result is within [2 ^ -52], relatively, of
    any real mantissa [V] between the integer one and the next. *)
Lemma binary_round_aux_close (sx : bool) (mx ex : Z) (lx : location) (s : Z) (V : R) :
  0 < mx -> Zdigits2 mx = 53 + s -> 0 <= s -> -1074 <= ex + s <= 970 ->
  (IZR mx <= V <= IZR mx + 1)%R ->
  exists m' e',
    binary_round_aux prec emax sx mx ex lx = S754_finite sx m' e'
    /\ 2 ^ 52 <= Zpos m' < 2 ^ 53
    /\ ex + s <= e' <= ex + s + 1
    /\ rel ulp_rel (IZR (Zpos m') * powerRZ 2 e') (V * powerRZ 2 ex).
Proof.
  intros Hm Hd Hs He HV.
  destruct (@binary_round_aux_normal sx mx ex lx s Hm Hd Hs He)
    as (m' & e' & Heq & Hn & He' & Hval).
  exists m', e'. split; [assumption|]. split; [lia|]. split; [lia|].
  pose proof (@digits_bounds mx s Hm Hd Hs) as Hb.
  set (m1 := mx / 2 ^ s) in *.
  assert (H2s : 0 < 2 ^ s) by (apply Z.pow_pos_nonneg; lia).
  assert (Hdiv : m1 * 2 ^ s <= mx < (m1 + 1) * 2 ^ s).
  { unfold m1. split.
    - rewrite Z.mul_comm. apply Z.mul_div_le; lia.
    - rewrite Z.mul_comm. replace (mx / 2 ^ s + 1) with (Z.succ (mx / 2 ^ s)) by lia.
      apply Z.mul_succ_div_gt; lia. }
  set (N := Zpos m' * 2 ^ (e' - (ex + s))) in *.
  assert (Hr : (IZR (Zpos m') * powerRZ 2 e' = IZR N * powerRZ 2 (ex + s))%R).
  { unfold N. rewrite mult_IZR, <- powerRZ_IZR by lia.
    rewrite Rmult_assoc, <- powerRZ_plus. do 2 f_equal. lia. }
  rewrite Hr. clear Hr.
  assert (HP : (powerRZ 2 (ex + s) = IZR (2 ^ s) * powerRZ 2 ex)%R).
  { rewrite Z.add_comm, powerRZ_plus, powerRZ_IZR by lia. reflexivity. }
  pose proof (powerRZ_pos ex) as Hpe.
  set (pe := powerRZ 2 ex) in *.
  rewrite HP.
  assert (H1 : (IZR m1 * IZR (2 ^ s) <= IZR mx)%R)
    by (rewrite <- mult_IZR; apply IZR_le; lia).
  assert (H2 : (IZR mx + 1 <= (IZR m1 + 1) * IZR (2 ^ s))%R).
  { rewrite <- (plus_IZR m1 1), <- mult_IZR, <- (plus_IZR mx 1). apply IZR_le; lia. }
  assert (H3 : (IZR m1 <= IZR N <= IZR m1 + 1)%R).
  { rewrite <- (plus_IZR m1 1). split; apply IZR_le; lia. }
  assert (H4 : (4503599627370496 <= IZR m1)%R).
  { apply IZR_le. change 4503599627370496 with (2 ^ 52). lia. }
  assert (H5 : (0 < IZR (2 ^ s))%R) by (apply IZR_lt; lia).
  set (S2 := IZR (2 ^ s)) in *. set (a := IZR m1) in *. set (n := IZR N) in *.
  set (x := IZR mx) in *.
  unfold rel, ulp_rel.
  assert (HS : (0 < S2 * pe)%R) by (apply Rmult_lt_0_compat; assumption).
  set (P := (S2 * pe)%R) in *.
  assert (Hv1 : (a * P <= V * pe)%R).
  { unfold P. rewrite <- Rmult_assoc. apply Rmult_le_compat_r; lra. }
  assert (Hv2 : (V * pe <= (a + 1) * P)%R).
  { unfold P. rewrite <- Rmult_assoc. apply Rmult_le_compat_r; lra. }
  assert (Hr1 : (a * P <= n * P)%R) by (apply Rmult_le_compat_r; lra).
  assert (Hr2 : (n * P <= (a + 1) * P)%R) by (apply Rmult_le_compat_r; lra).
  assert (HaP : (4503599627370496 * P <= a * P)%R) by (apply Rmult_le_compat_r; lra).
  lra.
Qed.

(** *** Multiplication, division and conversion of normal numbers *)

Lemma SFmul_normal (x y : spec_float) (lx hx ly hy : Z) :
  normal_in lx hx x -> normal_in ly hy y ->
  -1074 <= lx + ly + 52 -> hx + hy + 53 <= 970 ->
  normal_in (lx + ly + 52) (hx + hy + 54) (SFmul prec emax x y)
  /\ rel ulp_rel (SF2R (SFmul prec emax x y)) (SF2R x * SF2R y).
Proof.
  intros (mx & ex & -> & Hmx & Hex) (my & ey & -> & Hmy & Hey) Hlo Hhi.
  change (SFmul prec emax (S754_finite false mx ex) (S754_finite false my ey))
    with (binary_round_aux prec emax false (Zpos (mx * my)) (ex + ey) loc_Exact).
  assert (Hprod : 2 ^ 104 <= Zpos (mx * my) < 2 ^ 106).
  { rewrite Pos2Z.inj_mul.
    change (2 ^ 104) with (2 ^ 52 * 2 ^ 52). change (2 ^ 106) with (2 ^ 53 * 2 ^ 53).
    split; [apply Z.mul_le_mono_nonneg | apply Z.mul_lt_mono_nonneg]; lia. }
  assert (Hs : exists s, 52 <= s <= 53 /\ Zdigits2 (Zpos (mx * my)) = 53 + s).
  { destruct (Z_lt_le_dec (Zpos (mx * my)) (2 ^ 105)).
    - exists 52; split; [lia|]. apply digits2_pos_unique. simpl Z.sub. lia.
    - exists 53; split; [lia|]. apply digits2_pos_unique. simpl Z.sub. lia. }
  destruct Hs as (s & Hs & Hd).
  destruct (@binary_round_aux_close false (Zpos (mx * my)) (ex + ey) loc_Exact s
              (IZR (Zpos (mx * my)))) as (m' & e' & Heq & Hn & He' & Hrel);
    try lia; try lra.
  rewrite Heq. split.
  - exists m', e'. repeat split; try lia.
  - simpl SF2R. unfold cond_Zopp.
    replace (IZR (Zpos mx) * powerRZ 2 ex * (IZR (Zpos my) * powerRZ 2 ey))%R
      with (IZR (Zpos (mx * my)) * powerRZ 2 (ex + ey))%R; [assumption|].
    rewrite Pos2Z.inj_mul, mult_IZR, powerRZ_plus. ring.
Qed.

Lemma SFdiv_core_normal (mx my : positive) (ex ey : Z) :
  2 ^ 52 <= Zpos mx < 2 ^ 53 -> 2 ^ 52 <= Zpos my < 2 ^ 53 ->
  -1074 <= ex - ey - 53 ->
  exists l, SFdiv_core_binary prec emax (Zpos mx) ex (Zpos my) ey
            = (Zpos mx * 2 ^ 53 / Zpos my, ex - ey - 53, l).
Proof.
  intros Hmx Hmy He.
  unfold SFdiv_core_binary. cbv zeta.
  change (Zdigits2 (Zpos mx)) with (Zpos (digits2_pos mx)).
  change (Zdigits2 (Zpos my)) with (Zpos (digits2_pos my)).
  rewrite (@digits2_pos_unique mx 53), (@digits2_pos_unique my 53) by (simpl Z.sub; lia).
  replace (53 + ex - (53 + ey)) with (ex - ey) by lia.
  rewrite fexp_normal by lia. rewrite Z.min_l by lia.
  replace (ex - ey - (ex - ey - 53)) with 53 by lia.
  cbv beta iota.
  rewrite Z.shiftl_mul_pow2 by lia.
  unfold Z.div.
  destruct (Z.div_eucl (Zpos mx * 2 ^ 53) (Zpos my)) as [q r].
  eexists; reflexivity.
Qed.

Lemma SFdiv_normal (x y : spec_float) (lx hx ly hy : Z) :
  normal_in lx hx x -> normal_in ly hy y ->
  -1074 <= lx - hy - 53 -> hx - ly - 52 <= 970 ->
  normal_in (lx - hy - 53) (hx - ly - 51) (SFdiv prec emax x y)
  /\ rel ulp_rel (SF2R (SFdiv prec emax x y)) (SF2R x / SF2R y).
Proof.
  intros (mx & ex & -> & Hmx & Hex) (my & ey & -> & Hmy & Hey) Hlo Hhi.
  destruct (@SFdiv_core_normal mx my ex ey Hmx Hmy) as (l & Hcore); [lia|].
  unfold SFdiv. rewrite Hcore. cbv beta iota.
  set (q := Zpos mx * 2 ^ 53 / Zpos my).
  assert (Hq : 2 ^ 52 <= q < 2 ^ 54).
  { unfold q. split.
    - apply Z.div_le_lower_bound; [lia|].
      change (2 ^ 53) with (2 * 2 ^ 52). nia.
    - apply Z.div_lt_upper_bound; [lia|].
      change (2 ^ 54) with (2 * 2 ^ 53). nia. }
  assert (Hqdiv : Zpos my * q <= Zpos mx * 2 ^ 53 < Zpos my * (q + 1)).
  { unfold q. split.
    - apply Z.mul_div_le; lia.
    - replace (Zpos mx * 2 ^ 53 / Zpos my + 1)
        with (Z.succ (Zpos mx * 2 ^ 53 / Zpos my)) by lia.
      apply Z.mul_succ_div_gt; lia. }
  assert (Hs : exists s, 0 <= s <= 1 /\ Zdigits2 q = 53 + s).
  { destruct q as [|pq|pq]; try lia.
    destruct (Z_lt_le_dec (Zpos pq) (2 ^ 53)).
    - exists 0; split; [lia|]. apply digits2_pos_unique. simpl Z.sub. lia.
    - exists 1; split; [lia|]. apply digits2_pos_unique. simpl Z.sub. lia. }
  destruct Hs as (s & Hs & Hd).
  assert (Hmy0 : (0 < IZR (Zpos my))%R) by (apply IZR_lt; lia).
  assert (HV : (IZR q <= IZR (Zpos mx * 2 ^ 53) / IZR (Zpos my) <= IZR q + 1)%R).
  { split.
    - apply Rmult_le_reg_r with (IZR (Zpos my)); [assumption|].
      unfold Rdiv. rewrite Rmult_assoc, Rinv_l, Rmult_1_r by lra.
      rewrite <- mult_IZR. apply IZR_le. lia.
    - apply Rmult_le_reg_r with (IZR (Zpos my)); [assumption|].
      unfold Rdiv. rewrite Rmult_assoc, Rinv_l, Rmult_1_r by lra.
      rewrite <- (plus_IZR q 1), <- mult_IZR. apply IZR_le. lia. }
  destruct (@binary_round_aux_close (xorb false false) q (ex - ey - 53) l s
              (IZR (Zpos mx * 2 ^ 53) / IZR (Zpos my))) as (m' & e' & Heq & Hn & He' & Hrel);
    try lia; try assumption.
  rewrite Heq. split.
  - exists m', e'. repeat split; try lia.
  - simpl SF2R. unfold cond_Zopp.
    replace (IZR (Zpos mx) * powerRZ 2 ex / (IZR (Zpos my) * powerRZ 2 ey))%R
      with (IZR (Zpos mx * 2 ^ 53) / IZR (Zpos my) * powerRZ 2 (ex - ey - 53))%R;
      [assumption|].
    replace (ex - ey - 53) with (ex + (- ey + - (53))) by lia.
    rewrite !powerRZ_plus, !powerRZ_neg', mult_IZR.
    pose proof (powerRZ_pos ey). pose proof (powerRZ_pos 53).
    rewrite (powerRZ_IZR (n := 53)) in * by lia.
    field. split; [|split]; lra.
Qed.

Lemma pos_iter_xO (p k : positive) : Zpos (Pos.iter xO p k) = Zpos p * 2 ^ Zpos k.
Proof.
  induction k as [|k IH] using Pos.peano_ind.
  - simpl. lia.
  - rewrite Pos.iter_succ, Pos2Z.inj_succ, Z.pow_succ_r by lia.
    rewrite Pos2Z.inj_xO, IH. ring.
Qed.

Lemma binary_normalize_normal (p : positive) :
  Zpos (digits2_pos p) <= 1023 ->
  normal_in (Zpos (digits2_pos p) - 53) (Zpos (digits2_pos p) - 52)
    (binary_normalize prec emax (Zpos p) 0 false)
  /\ rel ulp_rel (SF2R (binary_normalize prec emax (Zpos p) 0 false)) (IZR (Zpos p)).
Proof.
  intros Hd. pose proof (digits2_pos_bounds p) as Hb.
  change (binary_normalize prec emax (Zpos p) 0 false) with (binary_round prec emax false p 0).
  unfold binary_round. rewrite Z.add_0_r.
  set (d := Zpos (digits2_pos p)) in *.
  rewrite fexp_normal by lia.
  unfold shl_align.
  destruct (d - 53 - 0) as [|k|k] eqn:E.
  - destruct (@binary_round_aux_close false (Zpos p) 0 loc_Exact 0 (IZR (Zpos p)))
      as (m' & e' & Heq & Hn & He' & Hrel); try lia; try lra.
    { unfold Zdigits2. fold d. lia. }
    rewrite Heq. split.
    + exists m', e'. repeat split; lia.
    + simpl SF2R. unfold cond_Zopp. simpl powerRZ in Hrel. now rewrite Rmult_1_r in Hrel.
  - destruct (@binary_round_aux_close false (Zpos p) 0 loc_Exact (d - 53) (IZR (Zpos p)))
      as (m' & e' & Heq & Hn & He' & Hrel); try lia; try lra.
    { unfold Zdigits2. fold d. lia. }
    rewrite Heq. split.
    + exists m', e'. repeat split; lia.
    + simpl SF2R. unfold cond_Zopp. simpl powerRZ in Hrel. now rewrite Rmult_1_r in Hrel.
  - assert (Hk : Zpos k = 53 - d) by lia.
    assert (Hmz : 2 ^ 52 <= Zpos (Pos.iter xO p k) < 2 ^ 53).
    { rewrite pos_iter_xO, Hk.
      assert (H52 : 2 ^ 52 = 2 ^ (d - 1) * 2 ^ (53 - d)).
      { rewrite <- Z.pow_add_r by lia. f_equal; lia. }
      assert (H53 : 2 ^ 53 = 2 ^ d * 2 ^ (53 - d)).
      { rewrite <- Z.pow_add_r by lia. f_equal; lia. }
      rewrite H52 at 1. rewrite H53.
      assert (0 < 2 ^ (53 - d)) by (apply Z.pow_pos_nonneg; lia).
      split; [apply Z.mul_le_mono_nonneg_r | apply Z.mul_lt_mono_pos_r]; lia. }
    destruct (@binary_round_aux_close false (Zpos (Pos.iter xO p k)) (d - 53) loc_Exact 0
                (IZR (Zpos (Pos.iter xO p k))))
      as (m' & e' & Heq & Hn & He' & Hrel); try lia; try lra.
    { change (Zdigits2 (Zpos (Pos.iter xO p k)))
        with (Zpos (digits2_pos (Pos.iter xO p k))).
      rewrite (@digits2_pos_unique (Pos.iter xO p k) 53) by (simpl Z.sub; lia). lia. }
    rewrite Heq. split.
    + exists m', e'. repeat split; lia.
    + simpl SF2R. unfold cond_Zopp.
      replace (IZR (Zpos p))
        with (IZR (Zpos (Pos.iter xO p k)) * powerRZ 2 (d - 53))%R; [assumption|].
      rewrite pos_iter_xO, Hk, mult_IZR, <- powerRZ_IZR by lia.
      rewrite Rmult_assoc, <- powerRZ_plus.
      replace (53 - d + (d - 53)) with 0 by lia. simpl. ring.
Qed.

(** *** [rint] rounds to a nearest integer *)

(** What [n] shifts leave: the quotient by [2 ^ n], and the round and
    sticky bits that tell where the remainder lies with regard to one
    half. *)
Lemma shr_iter_remainder (M : Z) (n : nat) :
  0 <= M ->
  let mrs := Nat.iter n shr_1 (shr_record_of_loc M loc_Exact) in
  exists rem,
    M = shr_m mrs * 2 ^ Z.of_nat n + rem
    /\ 0 <= rem < 2 ^ Z.of_nat n
    /\ 0 <= shr_m mrs
    /\ (if shr_r mrs then 2 ^ Z.of_nat n <= 2 * rem else 2 * rem < 2 ^ Z.of_nat n)
    /\ (shr_s mrs = false -> 2 * rem = if shr_r mrs then 2 ^ Z.of_nat n else 0).
Proof.
  intros HM. induction n as [|n IH].
  - exists 0. simpl. repeat split; lia.
  - cbv zeta in *.
    change (Nat.iter (S n) shr_1 (shr_record_of_loc M loc_Exact))
      with (shr_1 (Nat.iter n shr_1 (shr_record_of_loc M loc_Exact))).
    destruct IH as (rem & H1 & H2 & H3 & H4 & H5).
    rewrite Nat2Z.inj_succ, Z.pow_succ_r by lia.
    set (P := 2 ^ Z.of_nat n) in *.
    destruct (Nat.iter n shr_1 (shr_record_of_loc M loc_Exact)) as [m r s].
    cbv [shr_m shr_r shr_s] in H1, H3, H4, H5.
    assert (Hfin : forall r' rem',
               (rem' = rem \/ rem' = P + rem) ->
               (r' = false -> rem' = rem) -> (r' = true -> rem' = P + rem) ->
               0 <= rem' < 2 * P
               /\ (if r' then 2 * P <= 2 * rem' else 2 * rem' < 2 * P)
               /\ (orb r s = false -> 2 * rem' = if r' then 2 * P else 0)).
    { intros r' rem' Hrem Hf Ht. split; [lia|]. split.
      - destruct r'; [rewrite (Ht eq_refl) | rewrite (Hf eq_refl)]; lia.
      - intros Hs. apply Bool.orb_false_iff in Hs. destruct Hs as [-> Hs].
        specialize (H5 Hs).
        destruct r'; [rewrite (Ht eq_refl) | rewrite (Hf eq_refl)]; lia. }
    destruct m as [|[p|p|]|p]; try lia; cbv [shr_1 shr_m shr_r shr_s].
    + exists rem. destruct (Hfin false rem) as (F1 & F2 & F3); auto; try discriminate;
        repeat split; try lia; try assumption.
    + exists (P + rem). destruct (Hfin true (P + rem)) as (F1 & F2 & F3); auto; try discriminate;
        repeat split; try lia; try assumption.
    + exists rem. destruct (Hfin false rem) as (F1 & F2 & F3); auto; try discriminate;
        repeat split; try lia; try assumption.
    + exists (P + rem). destruct (Hfin true (P + rem)) as (F1 & F2 & F3); auto; try discriminate;
        repeat split; try lia; try assumption.
Qed.

Lemma rint_nearest (M : Z) (n : positive) :
  0 <= M ->
  let mrs := SpecFloat.iter_pos shr_1 n (shr_record_of_loc M loc_Exact) in
  let k := round_nearest_even (shr_m mrs) (loc_of_shr_record mrs) in
  0 <= k /\ - 2 ^ Zpos n <= 2 * (k * 2 ^ Zpos n - M) <= 2 ^ Zpos n.
Proof.
  intros HM. cbv zeta. rewrite iter_pos_nat.
  destruct (@shr_iter_remainder M (Pos.to_nat n) HM) as (rem & H1 & H2 & H3 & H4 & H5).
  rewrite positive_nat_Z in *.
  set (P := 2 ^ Zpos n) in *.
  destruct (Nat.iter (Pos.to_nat n) shr_1 (shr_record_of_loc M loc_Exact)) as [m r s].
  cbv [shr_m shr_r shr_s] in *.
  destruct r, s; cbv [loc_of_shr_record round_nearest_even].
  - lia.
  - specialize (H5 eq_refl). destruct (Z.even m); lia.
  - lia.
  - specialize (H5 eq_refl). lia.
Qed.

Lemma SFrint_nearest (x : spec_float) (lo hi : Z) :
  normal_in lo hi x -> (SF2R x < 4503599627370496)%R ->
  exists k, 0 <= k
    /\ SFrint x = binary_normalize prec emax k 0 false
    /\ (- / 2 <= IZR k - SF2R x <= / 2)%R.
Proof.
  intros (m & e & -> & Hm & He) Hv. simpl SF2R in *. unfold cond_Zopp in *.
  assert (Hm' : (4503599627370496 <= IZR (Zpos m))%R).
  { apply IZR_le. change 4503599627370496 with (2 ^ 52). lia. }
  destruct e as [|n|n].
  - simpl powerRZ in Hv. lra.
  - exfalso. rewrite (@powerRZ_IZR (Zpos n)) in Hv by lia.
    assert (1 <= IZR (2 ^ Zpos n))%R.
    { apply IZR_le. assert (0 < 2 ^ Zpos n) by (apply Z.pow_pos_nonneg; lia). lia. }
    nra.
  - destruct (@rint_nearest (Zpos m) n) as (Hk & Hnear); [lia|].
    cbv zeta in Hk, Hnear.
    unfold SFrint, cond_Zopp.
    set (k := round_nearest_even _ _) in *.
    exists k. split; [assumption|]. split; [reflexivity|].
    change (Zneg n) with (- Zpos n). rewrite powerRZ_neg', powerRZ_IZR by lia.
    assert (HP : (0 < IZR (2 ^ Zpos n))%R).
    { apply IZR_lt. apply Z.pow_pos_nonneg; lia. }
    assert (H1 : (- IZR (2 ^ Zpos n) <= 2 * (IZR k * IZR (2 ^ Zpos n) - IZR (Zpos m)))%R).
    { rewrite <- opp_IZR, <- mult_IZR, <- minus_IZR, <- mult_IZR. apply IZR_le. lia. }
    assert (H2 : (2 * (IZR k * IZR (2 ^ Zpos n) - IZR (Zpos m)) <= IZR (2 ^ Zpos n))%R).
    { rewrite <- mult_IZR, <- minus_IZR, <- mult_IZR. apply IZR_le. lia. }
    set (P := IZR (2 ^ Zpos n)) in *. set (M := IZR (Zpos m)) in *. set (K := IZR k) in *.
    replace (K - M * / P)%R with ((K * P - M) * / P)%R by (field; lra).
    assert (HiP : (0 < / P)%R) by (apply Rinv_0_lt_compat; assumption).
    assert (HPi : (P * / P = 1)%R) by (apply Rinv_r; lra).
    split.
    + apply Rmult_le_reg_r with P; [assumption|].
      rewrite Rmult_assoc, Rinv_l by lra. lra.
    + apply Rmult_le_reg_r with P; [assumption|].
      rewrite Rmult_assoc, Rinv_l by lra. lra.
Qed.

(** *** Relative errors *)

Lemma rel_weaken (a b x v : R) :
  rel a x v -> (a <= b)%R -> (0 <= v)%R -> rel b x v.
Proof. unfold rel. intros H Hab Hv. nra. Qed.

Lemma rel_trans (a b x y v : R) :
  (0 <= v)%R -> (0 <= a)%R -> (0 <= b)%R ->
  rel a x v -> rel b y x -> rel (a + b + a * b) y v.
Proof.
  unfold rel. intros Hv Ha Hb H1 H2.
  assert (a * v >= 0)%R by nra. assert (b * v >= 0)%R by nra.
  assert (b * (a * v) >= 0)%R by nra.
  assert (b * x <= b * v + b * (a * v))%R by nra.
  split; nra.
Qed.

Lemma rel_scale (a x v c : R) :
  (0 <= c)%R -> rel a x v -> rel a (x * c) (v * c).
Proof. unfold rel. intros Hc H. nra. Qed.

(** The quotient of two values known up to one rounding each. *)
Lemma rel_quotient (x y v w : R) :
  (0 <= v)%R -> (0 < w)%R ->
  rel ulp_rel x v -> rel ulp_rel y w -> rel (3 * ulp_rel) (x / y) (v / w).
Proof.
  unfold rel, ulp_rel. intros Hv Hw H1 H2.
  set (u := (/ 4503599627370496)%R) in *.
  assert (Hu : (0 < u <= / 4)%R) by (unfold u; lra).
  assert (Hy : (0 < y)%R) by nra.
  unfold Rdiv.
  assert (Hyy : (y * / y = 1)%R) by (apply Rinv_r; lra).
  assert (Hww : (w * / w = 1)%R) by (apply Rinv_r; lra).
  assert (Hiw : (0 < / w)%R) by (apply Rinv_0_lt_compat; assumption).
  set (q := (v * / w)%R).
  assert (Hq : (0 <= q)%R) by (unfold q; nra).
  assert (Hvq : (v = q * w)%R) by (unfold q; rewrite Rmult_assoc, Rinv_l; lra).
  rewrite Hvq in H1.
  assert (Hqy : (q * w - u * (q * w) <= q * y + u * (q * y)
                 /\ q * y - u * (q * y) <= q * w + u * (q * w))%R) by nra.
  split.
  - apply Rmult_le_reg_r with y; [assumption|].
    replace (x * / y * y)%R with (x * (y * / y))%R by ring.
    rewrite Hyy. nra.
  - apply Rmult_le_reg_r with y; [assumption|].
    replace (x * / y * y)%R with (x * (y * / y))%R by ring.
    rewrite Hyy. nra.
Qed.

(** *** The operations on [float] *)

(** [to_float64] is the conversion of the hardware on the integers it
    takes. *)
Lemma to_float64_of_uint63 (n : PrimInt63.int) :
  to_float64 (Uint63Axioms.to_Z n) = of_uint63 n.
Proof. unfold to_float64. rewrite <- of_uint63_spec. apply SF2Prim_Prim2SF. Qed.

Lemma normal_in_weaken (lo hi lo' hi' : Z) (x : spec_float) :
  normal_in lo hi x -> lo' <= lo -> hi <= hi' -> normal_in lo' hi' x.
Proof.
  intros (m & e & -> & Hm & He) Hlo Hhi. exists m, e. repeat split; lia.
Qed.

Lemma normal_in_valid (lo hi : Z) (x : spec_float) :
  normal_in lo hi x -> -1074 <= lo -> hi <= 971 -> valid_binary x = true.
Proof.
  intros (m & e & -> & Hm & He) Hlo Hhi.
  unfold SpecFloat.valid_binary, SpecFloat.bounded, SpecFloat.canonical_mantissa.
  rewrite (@digits2_pos_unique m 53) by (simpl Z.sub; lia).
  rewrite fexp_normal by lia.
  apply andb_true_intro. split.
  - apply Z.eqb_eq. lia.
  - apply Z.leb_le. unfold emax, prec. lia.
Qed.

Lemma normal_in_pos (lo hi : Z) (x : spec_float) :
  normal_in lo hi x -> (0 < SF2R x)%R.
Proof.
  intros (m & e & -> & Hm & He). simpl. apply Rmult_lt_0_compat.
  - apply IZR_lt. lia.
  - apply powerRZ_pos.
Qed.

Lemma to_float64_pos (p : positive) :
  Zpos p < 2 ^ 63 ->
  normal_in (-52) 11 (Prim2SF (to_float64 (Zpos p)))
  /\ rel ulp_rel (F2R (to_float64 (Zpos p))) (IZR (Zpos p)).
Proof.
  intros Hp. pose proof (digits2_pos_bounds p) as Hb.
  assert (Hd : Zpos (digits2_pos p) <= 63).
  { assert (Zpos (digits2_pos p) - 1 < 63); [|lia].
    apply (Z.pow_lt_mono_r_iff 2); lia. }
  destruct (@binary_normalize_normal p) as (Hn & Hr); [lia|].
  unfold F2R, to_float64. rewrite Prim2SF_SF2Prim.
  - split; [|assumption]. apply normal_in_weaken with (1 := Hn); lia.
  - apply normal_in_valid with (1 := Hn); lia.
Qed.

Lemma mul_normal (x y : float) (lx hx ly hy : Z) :
  normal_in lx hx (Prim2SF x) -> normal_in ly hy (Prim2SF y) ->
  -1074 <= lx + ly + 52 -> hx + hy + 53 <= 970 ->
  normal_in (lx + ly + 52) (hx + hy + 54) (Prim2SF (x * y))
  /\ rel ulp_rel (F2R (x * y)) (F2R x * F2R y).
Proof. intros. unfold F2R. rewrite mul_spec. now apply SFmul_normal. Qed.

Lemma div_normal (x y : float) (lx hx ly hy : Z) :
  normal_in lx hx (Prim2SF x) -> normal_in ly hy (Prim2SF y) ->
  -1074 <= lx - hy - 53 -> hx - ly - 52 <= 970 ->
  normal_in (lx - hy - 53) (hx - ly - 51) (Prim2SF (x / y))
  /\ rel ulp_rel (F2R (x / y)) (F2R x / F2R y).
Proof. intros. unfold F2R. rewrite div_spec. now apply SFdiv_normal. Qed.

Lemma rint_nearest_integer (x : float) (lo hi : Z) :
  normal_in lo hi (Prim2SF x) -> (F2R x < 4503599627370496)%R ->
  exists k, 0 <= k /\ rint x = to_float64 k /\ (- / 2 <= IZR k - F2R x <= / 2)%R.
Proof.
  intros Hn Hv. destruct (@SFrint_nearest (Prim2SF x) lo hi Hn Hv) as (k & Hk & Heq & Hr).
  exists k. split; [assumption|]. split; [|assumption].
  unfold rint, to_float64. now rewrite Heq.
Qed.

(** The literals [100] and [10] are exact. *)
Lemma hundred_normal : normal_in (-46) (-46) (Prim2SF 100).
Proof.
  eexists _, _. split; [vm_compute; reflexivity |].
  split; [vm_compute; split; congruence | lia].
Qed.

Lemma ten_normal : normal_in (-49) (-49) (Prim2SF 10).
Proof.
  eexists _, _. split; [vm_compute; reflexivity |].
  split; [vm_compute; split; congruence | lia].
Qed.

Lemma F2R_hundred : F2R 100 = 100%R.
Proof.
  unfold F2R. replace (Prim2SF 100) with (S754_finite false 7036874417766400 (-46))
    by (vm_compute; reflexivity).
  simpl. lra.
Qed.

Lemma F2R_ten : F2R 10 = 10%R.
Proof.
  unfold F2R. replace (Prim2SF 10) with (S754_finite false 5629499534213120 (-49))
    by (vm_compute; reflexivity).
  simpl. lra.
Qed.

(** *** One percentage *)

(** The last division, of a whole number of tenths by ten. *)
Lemma to_float64_quotient_ten (K : Z) :
  0 <= K <= 1000 ->
  (- eps <= F2R (to_float64 K / 10) - IZR K / 10 <= eps)%R.
Proof.
  intros HK. destruct K as [|pk|pk]; try lia.
  - unfold F2R. replace (Prim2SF (to_float64 0 / 10)) with (S754_zero false)
      by (vm_compute; reflexivity).
    unfold eps. simpl. lra.
  - destruct (@to_float64_pos pk) as (Hn & Hr); [lia|].
    destruct (@div_normal (to_float64 (Zpos pk)) 10 (-52) 11 (-49) (-49) Hn ten_normal)
      as (_ & Hd); try lia.
    rewrite F2R_ten in Hd.
    assert (HK' : (0 < IZR (Zpos pk) <= 1000)%R).
    { split; [apply IZR_lt | apply IZR_le]; lia. }
    unfold rel, ulp_rel, Rdiv in *. unfold eps. lra.
Qed.

(** The roundings before [rint], namely the two conversions, the division
    and the two multiplications, leave [1000 * c / t] up to the
    relative error [9 * 2 ^ -52]; [rint] then takes a nearest integer. *)
Lemma percentage_positive (c T : nat) :
  (1 <= c <= T)%nat -> Z.of_nat T < 2 ^ 63 ->
  exists K, 0 <= K <= 1000
    /\ percentage c T = (to_float64 K / 10)%float
    /\ (- (/ 2 + eps) <= IZR K - 1000 * IZR (Z.of_nat c) / IZR (Z.of_nat T) <= / 2 + eps)%R.
Proof.
  intros Hc HT.
  destruct (Z.of_nat c) as [|pc|pc] eqn:Ec; try lia.
  destruct (Z.of_nat T) as [|pT|pT] eqn:ET; try lia.
  assert (HcT : Zpos pc <= Zpos pT) by lia.
  destruct (@to_float64_pos pc) as (Han & Har); [lia|].
  destruct (@to_float64_pos pT) as (Hbn & Hbr); [lia|].
  set (a := to_float64 (Zpos pc)) in *. set (b := to_float64 (Zpos pT)) in *.
  assert (HC : (0 < IZR (Zpos pc))%R) by (apply IZR_lt; lia).
  assert (HTT : (0 < IZR (Zpos pT))%R) by (apply IZR_lt; lia).
  assert (HCT : (IZR (Zpos pc) <= IZR (Zpos pT))%R) by (apply IZR_le; lia).
  set (C := IZR (Zpos pc)) in *. set (TT := IZR (Zpos pT)) in *.
  assert (Hratio : (0 < C / TT <= 1)%R).
  { unfold Rdiv. assert (0 < / TT)%R by (apply Rinv_0_lt_compat; assumption).
    split; [apply Rmult_lt_0_compat; assumption|].
    apply Rmult_le_reg_r with TT; [assumption|].
    rewrite Rmult_assoc, Rinv_l by lra. lra. }
  set (v := (C / TT)%R) in *.
  (* the quotient *)
  destruct (@div_normal a b (-52) 11 (-52) 11 Han Hbn) as (Hqn & Hqr); try lia.
  pose proof (@rel_quotient (F2R a) (F2R b) C TT (Rlt_le _ _ HC) HTT Har Hbr) as Hab.
  fold v in Hab.
  assert (Hq : rel (5 * ulp_rel) (F2R (a / b)) v).
  { apply rel_weaken with (a := (3 * ulp_rel + ulp_rel + 3 * ulp_rel * ulp_rel)%R);
      [|unfold ulp_rel; lra|lra].
    apply rel_trans with (x := (F2R a / F2R b)%R); try assumption;
      unfold ulp_rel; lra. }
  set (q := (a / b)%float) in *.
  (* times 100 *)
  destruct (@mul_normal q 100 _ _ _ _ Hqn hundred_normal) as (Hx2n & Hx2r); try lia.
  rewrite F2R_hundred in Hx2r.
  assert (Hx2 : rel (7 * ulp_rel) (F2R (q * 100)) (v * 100)).
  { apply rel_weaken with (a := (5 * ulp_rel + ulp_rel + 5 * ulp_rel * ulp_rel)%R);
      [|unfold ulp_rel; lra|lra].
    apply rel_trans with (x := (F2R q * 100)%R); try assumption;
      try (unfold ulp_rel; lra).
    apply rel_scale; [lra|assumption]. }
  set (x2 := (q * 100)%float) in *.
  (* times 10 *)
  destruct (@mul_normal x2 10 _ _ _ _ Hx2n ten_normal) as (Hx3n & Hx3r); try lia.
  rewrite F2R_ten in Hx3r.
  assert (Hx3 : rel (9 * ulp_rel) (F2R (x2 * 10)) (v * 100 * 10)).
  { apply rel_weaken with (a := (7 * ulp_rel + ulp_rel + 7 * ulp_rel * ulp_rel)%R);
      [|unfold ulp_rel; lra|lra].
    apply rel_trans with (x := (F2R x2 * 10)%R); try assumption;
      try (unfold ulp_rel; lra).
    apply rel_scale; [lra|assumption]. }
  set (x3 := (x2 * 10)%float) in *.
  unfold rel, ulp_rel in Hx3.
  (* rint *)
  destruct (@rint_nearest_integer x3 _ _ Hx3n) as (K & HK0 & HK & Hnear); [lra|].
  assert (HK1 : K <= 1000).
  { assert (IZR K < IZR 1001)%R by lra. apply lt_IZR in H. lia. }
  exists K. split; [lia|]. split.
  - unfold percentage, round1. rewrite Ec, ET. fold a b q x2 x3. now rewrite HK.
  - unfold eps. replace (1000 * C / TT)%R with (v * 100 * 10)%R by (unfold v; field; lra).
    lra.
Qed.

(** A count of zero gives the percentage zero. *)
Lemma percentage_zero (T : nat) :
  (1 <= T)%nat -> Z.of_nat T < 2 ^ 63 ->
  percentage 0 T = (to_float64 0 / 10)%float.
Proof.
  intros HT1 HT. unfold percentage.
  destruct (Z.of_nat T) as [|pT|pT] eqn:ET; try lia.
  destruct (@to_float64_pos pT) as ((m & e & Hb & _) & _); [lia|].
  assert (Hq : (to_float64 (Z.of_nat 0) / to_float64 (Zpos pT))%float = 0%float).
  { apply Prim2SF_inj. rewrite div_spec, Hb. reflexivity. }
  rewrite Hq. vm_compute. reflexivity.
Qed.

Lemma percentage_rounds (c T : nat) :
  (c <= T)%nat -> (1 <= T)%nat -> Z.of_nat T < 2 ^ 63 ->
  exists K, 0 <= K <= 1000
    /\ percentage c T = (to_float64 K / 10)%float
    /\ (- (/ 2 + eps) <= IZR K - 1000 * INR c / INR T <= / 2 + eps)%R
    /\ (- (/ 20 + 2 * eps) <= F2R (percentage c T) - 100 * INR c / INR T <= / 20 + 2 * eps)%R.
Proof.
  intros Hc HT1 HT. rewrite !INR_IZR_INZ.
  assert (HTT : (0 < IZR (Z.of_nat T))%R) by (apply IZR_lt; lia).
  assert (Hex : exists K, 0 <= K <= 1000
    /\ percentage c T = (to_float64 K / 10)%float
    /\ (- (/ 2 + eps) <= IZR K - 1000 * IZR (Z.of_nat c) / IZR (Z.of_nat T) <= / 2 + eps)%R).
  { destruct c as [|c].
    - exists 0. split; [lia|]. split; [now apply percentage_zero|].
      unfold eps, Rdiv. simpl. rewrite Rmult_0_r, Rmult_0_l. lra.
    - apply percentage_positive; lia. }
  destruct Hex as (K & HK & Heq & Hnear).
  exists K. split; [assumption|]. split; [assumption|]. split; [assumption|].
  rewrite Heq. pose proof (@to_float64_quotient_ten K HK) as Hten.
  replace (100 * IZR (Z.of_nat c) / IZR (Z.of_nat T))%R
    with (1000 * IZR (Z.of_nat c) / IZR (Z.of_nat T) / 10)%R by (field; lra).
  unfold eps in *. lra.
Qed.

End Binary64.

(** *** The percentages of an expander *)

Lemma t_count_le_total (data : list TotalsRow) (t : TotalsRow) :
  In t data -> t_count t <= total data.
Proof.
  unfold total. induction data as [| r data IH]; simpl; intros Hin.
  - destruct Hin.
  - destruct Hin as [-> | Hin]; [lia |]. specialize (IH Hin). lia.
Qed.

Lemma percentages_rounded (T : nat) (data : list TotalsRow) :
  1 <= T -> (Z.of_nat T < 2 ^ 63)%Z ->
  (forall t, In t data -> t_count t <= T) ->
  Forall2
    (fun t p =>
       exists K : Z,
         (0 <= K <= 1000)%Z
         /\ p = (to_float64 K / 10)%float
         /\ (Rabs (IZR K - 1000 * INR (t_count t) / INR T) <= / 2 + eps)%R
         /\ (Rabs (F2R p - 100 * INR (t_count t) / INR T) <= / 20 + 2 * eps)%R)
    data (map (fun t => percentage (t_count t) T) data).
Proof.
  intros HT1 HT Hle. induction data as [| t data IH]; simpl; constructor.
  - destruct (@percentage_rounds (t_count t) T) as (K & HK & Heq & Hnear & Hval);
      [apply Hle; now left | assumption | assumption |].
    exists K. split; [assumption |]. split; [assumption |].
    split; apply Rabs_le; lra.
  - apply IH. intros t' Ht'. apply Hle. now right.
Qed.

Lemma percentages_sum (T : nat) (data : list TotalsRow) :
  1 <= T -> (Z.of_nat T < 2 ^ 63)%Z ->
  (forall t, In t data -> t_count t <= T) ->
  (- (/ 10 * INR (List.length data))
   <= Rsum (map F2R (map (fun t => percentage (t_count t) T) data))
      - 100 * INR (list_sum (map t_count data)) / INR T
   <= / 10 * INR (List.length data))%R.
Proof.
  intros HT1 HT Hle. induction data as [| t data IH].
  - simpl. unfold Rdiv. rewrite !Rmult_0_r, Rmult_0_l. lra.
  - destruct (@percentage_rounds (t_count t) T) as (K & _ & _ & _ & Hval);
      [apply Hle; now left | assumption | assumption |].
    assert (IH' := IH (fun t' Ht' => Hle t' (or_intror Ht'))). clear IH.
    change (List.length (t :: data)) with (S (List.length data)).
    rewrite S_INR. simpl map. simpl list_sum. simpl Rsum. rewrite plus_INR.
    replace (100 * (INR (t_count t) + INR (list_sum (map t_count data))) / INR T)%R
      with (100 * INR (t_count t) / INR T
            + 100 * INR (list_sum (map t_count data)) / INR T)%R
      by (unfold Rdiv; ring).
    unfold eps in Hval. lra.
Qed.

(** C5.  In a subgroup whose sum of counts is not zero and fits an
    [int64], every percentage is the binary64 quotient by ten of a whole
    number of tenths that lies within one half, and a rounding error of at
    most [10 ^ -9], of the exact [1000 * count / total]: it is the count
    divided by the sum, times 100, rounded to one decimal place, and it
    differs from the exact percentage by at most [0.05 + 2 * 10 ^ -9].  The
    percentages sum to 100 within 0.1 times the number of answers. *)
Theorem percentages_sum_to_100 (data : list TotalsRow) :
  1 <= total data -> (Z.of_nat (total data) < 2 ^ 63)%Z ->
  Forall2
    (fun t p =>
       exists K : Z,
         (0 <= K <= 1000)%Z
         /\ p = (to_float64 K / 10)%float
         /\ (Rabs (IZR K - 1000 * INR (t_count t) / INR (total data))
             <= / 2 + eps)%R
         /\ (Rabs (F2R p - 100 * INR (t_count t) / INR (total data))
             <= / 20 + 2 * eps)%R)
    data (percentages data)
  /\ (Rabs (Rsum (map F2R (percentages data)) - 100)
      <= / 10 * INR (List.length data))%R.
Proof.
  intros Hpos Hfit. split.
  - apply percentages_rounded; try assumption.
    intros t Ht. now apply t_count_le_total.
  - pose proof (@percentages_sum (total data) data Hpos Hfit
                  (fun t Ht => t_count_le_total data t Ht)) as Hsum.
    unfold percentages.
    assert (HT : (0 < INR (total data))%R) by (apply lt_0_INR; lia).
    replace (100 * INR (list_sum (map t_count data)) / INR (total data))%R
      with 100%R in Hsum by (unfold total; field; unfold total in HT; lra).
    apply Rabs_le. lra.
Qed.

(** The three answers A and the one answer B of the January table: 75 and
    25 percent. *)
Lemma percentages_sum_to_100_witness :
  let data := @get_question_totals stable_sort_values january_table None in
  percentages data = [75%float; 25%float]
  /\ (Rabs (Rsum (map F2R (percentages data)) - 100) <= / 10 * INR 2)%R.
Proof.
  intros data. split; [vm_compute; reflexivity |].
  assert (Hpos : 1 <= total data) by (vm_compute; lia).
  assert (Hfit : (Z.of_nat (total data) < 2 ^ 63)%Z) by (vm_compute; reflexivity).
  exact (proj2 (@percentages_sum_to_100 data Hpos Hfit)).
Defined.

(** ** The percentages the tab shows *)

Lemma restrict_session_length (df : DataFrame)
    (session_filter : option (cell string)) :
  List.length (restrict_session df session_filter) <= List.length df.
Proof.
  unfold restrict_session, loc_eq.
  destruct session_filter as [v |]; [destruct (py_bool v) |];
    auto using filter_length_le.
Qed.

(** The divisor of an expander lies between one and the height of the
    table. *)
Lemma expander_total_bounds (S : SortValues) (df : DataFrame)
    (session_filter : option (cell string)) (k : SessionKey) (q : string)
    (data : list TotalsRow) :
  In (k, q, data) (expanders (get_question_totals df session_filter)) ->
  1 <= total data <= List.length df.
Proof.
  intros Hexp. apply expanders_In in Hexp. destruct Hexp as (_ & Hq & Hdata).
  set (totals := get_question_totals df session_filter) in *.
  set (rows := restrict_session df session_filter).
  destruct (answer_groups_rows S df session_filter) as (_ & _ & Hrow).
  fold totals in Hrow. split.
  - apply drop_duplicates_In, in_map_iff in Hq.
    destruct Hq as (t & Ht & Hin).
    assert (Hdata_t : In t data).
    { subst data. now apply question_data_In. }
    apply session_data_In in Hin. destruct Hin as [Hin _].
    destruct (Hrow t Hin) as (_ & _ & Hone).
    unfold total. etransitivity; [exact Hone |].
    apply list_sum_In_le. now apply in_map.
  - etransitivity; [| apply (restrict_session_length df session_filter)].
    fold rows. subst data. unfold total, question_data, session_data.
    rewrite filter_twice, list_sum_filter.
    pose proof (get_question_totals_perm S df session_filter) as Hperm.
    fold totals in Hperm. fold rows in Hperm.
    rewrite (list_sum_perm (Permutation_map _ Hperm)).
    unfold answer_groups. rewrite map_map. simpl.
    rewrite (map_ext _ (fun K => List.length
               (filter (in_expander k q) (get_group answer_key K rows))))
      by (intros K; apply expander_group_size).
    rewrite (@group_sizes_sum AnswerKey _ answer_key (in_expander k q)).
    + apply filter_length_le.
    + apply group_keys_NoDup.
    + intros r K Hr HK. apply group_keys_In. now exists r.
Qed.

(** X17.  For a table of fewer than [2 ^ 63] rows, whatever the session
    filter, the percentages of every expander of the second tab are
    numbers with one decimal place, each within [0.05 + 2 * 10 ^ -9] of the
    exact share of its answer, and they sum to 100 within 0.1 times the
    number of answers: the divisor is never zero there and fits an
    [int64]. *)
Theorem expander_percentages (S : SortValues) (df : DataFrame)
    (session_filter : option (cell string)) (k : SessionKey) (q : string)
    (data : list TotalsRow) :
  In (k, q, data) (expanders (get_question_totals df session_filter)) ->
  (Z.of_nat (List.length df) < 2 ^ 63)%Z ->
  Forall2
    (fun t p =>
       exists K : Z,
         (0 <= K <= 1000)%Z
         /\ p = (to_float64 K / 10)%float
         /\ (Rabs (F2R p - 100 * INR (t_count t) / INR (total data))
             <= / 20 + 2 * eps)%R)
    data (percentages data)
  /\ (Rabs (Rsum (map F2R (percentages data)) - 100)
      <= / 10 * INR (List.length data))%R.
Proof.
  intros Hexp Hrows.
  destruct (expander_total_bounds S df session_filter k q data Hexp)
    as [Hpos Hle].
  assert (Hfit : (Z.of_nat (total data) < 2 ^ 63)%Z) by lia.
  split.
  - eapply Forall2_impl;
      [| apply (@percentages_rounded (total data) data Hpos Hfit
                  (fun t Ht => t_count_le_total data t Ht))].
    intros t p (K & HK & Hp & _ & Hval). exists K. tauto.
  - pose proof (@percentages_sum (total data) data Hpos Hfit
                  (fun t Ht => t_count_le_total data t Ht)) as Hsum.
    unfold percentages.
    assert (HT : (0 < INR (total data))%R) by (apply lt_0_INR; lia).
    replace (100 * INR (list_sum (map t_count data)) / INR (total data))%R
      with 100%R in Hsum by (unfold total; field; unfold total in HT; lra).
    apply Rabs_le. lra.
Qed.

(** The expander of [january_table]. *)
Lemma expander_percentages_witness :
  percentages
    [mkTotalsRow 20240115 "Jan 2024" "Housing" "Top priority?" "A" 3;
     mkTotalsRow 20240115 "Jan 2024" "Housing" "Top priority?" "B" 1]%string
  = [75%float; 25%float]
  /\ (Rabs (Rsum (map F2R (percentages
        [mkTotalsRow 20240115 "Jan 2024" "Housing" "Top priority?" "A" 3;
         mkTotalsRow 20240115 "Jan 2024" "Housing" "Top priority?" "B" 1]%string))
            - 100)
      <= / 10 * INR 2)%R.
Proof.
  split; [vm_compute; reflexivity |].
  assert (Hin : In ((20240115%Z, ("Jan 2024", "Housing")), "Top priority?",
      [mkTotalsRow 20240115 "Jan 2024" "Housing" "Top priority?" "A" 3;
       mkTotalsRow 20240115 "Jan 2024" "Housing" "Top priority?" "B" 1])%string
     (expanders (@get_question_totals stable_sort_values january_table None)))
    by (vm_compute; left; reflexivity).
  assert (Hrows : (Z.of_nat (List.length january_table) < 2 ^ 63)%Z)
    by (vm_compute; reflexivity).
  exact (proj2 (@expander_percentages stable_sort_values january_table None
                  _ _ _ Hin Hrows)).
Defined.
